(** * read-through-http-cache: a shallow embedding of [index.js]

    The cache is a JavaScript class whose methods are [async] functions
    running on the single-threaded event loop.  The embedding makes that
    machine explicit:

    - objects the code mutates in place (cache entries, responses) live in
      heaps addressed by references, so that aliasing is visible;
    - promises live in a table; a pending promise carries the list of
      reactions registered on it, a settled one its outcome;
    - every [await] and every [.then]/[.catch] handler of the source is one
      constructor of [Reaction], a defunctionalised continuation labelled
      with the source lines it resumes;
    - the microtask queue is a list of jobs, run one at a time;
    - the collaborators (policy calculator, fetch callback, cold storage,
      wall clock, [Math.random]) are the environment: the calculator is an
      interface, calls to the callback and to cold storage are logged and
      return promises the environment settles later.  *)

From Stdlib Require Import ZArith Lia.
From stdpp Require Import gmap strings list fin_maps.

Local Open Scope Z_scope.

(** ** Plain data *)

(** A JS object used as a header map; assignment replaces an existing
    property in place and appends a new one. *)
Definition Headers := list (string * string).

Fixpoint set_header (k v : string) (h : Headers) : Headers :=
  match h with
  | [] => [(k, v)]
  | (k', v') :: h' =>
      if String.eqb k k' then (k, v) :: h' else (k', v') :: set_header k v h'
  end.

Fixpoint get_header (k : string) (h : Headers) : option string :=
  match h with
  | [] => None
  | (k', v') :: h' => if String.eqb k k' then Some v' else get_header k h'
  end.

Record Request := { req_method : string; req_headers : Headers }.

(** [res.body]: a [Buffer] of bytes, or anything else. *)
Inductive Body := Buffer (bytes : list Byte.byte) | NotBuffer.

(** A response object.  [headers] may be missing; [ttl] is the property
    that a cache hit adds. *)
Record Response := {
  status : Z;
  headers : option Headers;
  body : Body;
  ttl : option Z
}.

Definition with_headers (h : Headers) (r : Response) : Response :=
  {| status := status r; headers := Some h; body := body r; ttl := ttl r |}.

Definition with_ttl (t : Z) (r : Response) : Response :=
  {| status := status r; headers := headers r; body := body r; ttl := Some t |}.

(** [res.headers[k] = v] on a response that has headers. *)
Definition stamp (k v : string) (r : Response) : Response :=
  match headers r with
  | Some h => with_headers (set_header k v h) r
  | None => r
  end.

Inductive Error :=
  | BadCacheArgs                     (* Error("Bad cache args") *)
  | EmptyResult (url : string)       (* Error(`Empty result: ${url}`) *)
  | UnexpectedRevalidation           (* Error("Unexpected revalidation") *)
  | TypeError                        (* property access on undefined *)
  | External (code : nat).           (* a rejection coming from a collaborator *)

(** ** The constructor (lines 7-29) *)

(** The recognised options; a field that is [None] was not given. *)
Record Options := {
  opt_busyTimeout : option Z;
  opt_errorTimeout : option Z;
  opt_size : option Z;
  opt_maxAge : option Z;
  opt_coldStorage : bool
}.

Definition no_options : Options :=
  {| opt_busyTimeout := None; opt_errorTimeout := None; opt_size := None;
     opt_maxAge := None; opt_coldStorage := false |}.

(** [x || d] on an optional number: [undefined] and [0] are falsy. *)
Definition or_default (x : option Z) (d : Z) : Z :=
  match x with
  | Some v => if v =? 0 then d else v
  | None => d
  end.

(** The fields of [this]; [lru_max] and [lru_maxAge] are the options handed
    to the LRU store. *)
Record Config := {
  _busyTimeout : Z;
  _errorTimeout : Z;
  lru_max : Z;
  lru_maxAge : Z;
  _coldStorage : bool
}.

Definition constructor (options : Options) : Config :=
  {| _busyTimeout := or_default (opt_busyTimeout options) 2000;
     _errorTimeout := or_default (opt_errorTimeout options) 200;
     lru_max := or_default (opt_size options) (500 * 1024 * 1024);
     lru_maxAge := or_default (opt_maxAge options) (24 * 3600 * 1000);
     _coldStorage := opt_coldStorage options |}.

(** ** The policy calculator *)

(** The interface of [http-cache-semantics] that the cache uses.  The
    calculator reads the wall clock, so each method takes the current time.
    [newPolicy now request res] is
    [new CachePolicy(request, res, {shared:true, ignoreCargoCult:true})]. *)
Class PolicyCalculator := {
  Policy : Type;
  newPolicy : Z -> Request -> Response -> Policy;
  satisfiesWithoutRevalidation : Policy -> Z -> Request -> bool;
  responseHeaders : Policy -> Z -> Headers;
  timeToLive : Policy -> Z -> Z;
  revalidationHeaders : Policy -> Z -> Request -> Headers;
  revalidatedPolicy : Policy -> Z -> Headers -> option Response -> Policy * bool
}.

(** Truthiness of an optional property. *)
Definition truthy {A} (o : option A) : bool :=
  match o with
  | Some _ => true
  | None => false
  end.

(** ** The machine *)

(** References into the heaps and the promise table, and the identity of
    a caller-supplied [onCacheMissCallback], are numbers. *)
Abbreviation PromiseRef := nat (only parsing).
Abbreviation EntryRef := nat (only parsing).
Abbreviation ResRef := nat (only parsing).
Abbreviation Callback := nat (only parsing).

Section Machine.
Context {PC : PolicyCalculator}.

(** A cache entry object, [{cost, temp, isError, policy, inColdStoarge,
    promise}] (the misspelt field name is the source's).  A property the
    object literal leaves out reads as falsy: [false] or [None]. *)
Record Entry := {
  cost : Z;
  temp : bool;
  isError : bool;
  policy : option Policy;
  inColdStoarge : bool;
  promise : PromiseRef
}.

(** What a promise of the program can be fulfilled with: [undefined], a
    response object, the coordinator's [{res, policy, inColdStoarge}], or
    an array of such values. *)
#[warnings="-register-all"]
Inductive Value :=
  | VUndefined
  | VResponse (r : ResRef)
  | VResult (res : option ResRef) (pol : Policy) (cold : bool)
  | VArray (vs : list Value).              (* what [Promise.all] yields *)

Inductive Outcome :=
  | Fulfilled (v : Value)
  | Rejected (e : Error).

(** The continuations of the source, each with the variables it closes
    over.  [outer] is the promise of the enclosing [async] call, [result]
    the promise of [_getResult]. *)
Inductive Reaction :=
  | AwaitTemp (url : string) (request : Request) (cb : Callback)
      (outer : PromiseRef)                                  (* lines 38-39 *)
  | AwaitHit (url : string) (cached : EntryRef)
      (outer : PromiseRef)                                  (* lines 42-50 *)
  | ThenStore (url : string)
      (resultPromise derived : PromiseRef)                  (* lines 55-71 *)
  | CatchError (url : string) (resultPromise : PromiseRef)  (* lines 72-76 *)
  | Adopt (target : PromiseRef)             (* [return p] of an async call *)
  | ColdGetCatch (derived : PromiseRef)                     (* line 85, catch *)
  | AwaitColdGet (url : string) (request : Request)
      (cached : option EntryRef) (cb : Callback)
      (result : PromiseRef)                                 (* lines 85-91 *)
  | AwaitRevalidation (request : Request) (cached : EntryRef)
      (hdrs : Headers) (cb : Callback)
      (result : PromiseRef)                                 (* lines 95-104 *)
  | AwaitStored (pol : Policy) (result : PromiseRef)        (* line 100 *)
  | AwaitRefetch (pol : Policy) (result : PromiseRef)       (* line 102 *)
  | AwaitFetch (request : Request) (result : PromiseRef)    (* lines 107-113 *)
  | ColdSetCatch (cached : EntryRef)
      (derived : PromiseRef)                                (* lines 121-124 *)
  | Dispose (url : string) (cached : EntryRef)
      (derived : PromiseRef)                                (* lines 18-20 *)
  | DumpEntry (url : string) (cached : EntryRef)
      (derived : PromiseRef)                                (* lines 133-135 *)
  | AllElement (all : PromiseRef) (arr : list PromiseRef)
      (base : PromiseRef) (derived : PromiseRef).  (* an element of [Promise.all] *)

Inductive PromiseState :=
  | Pending (reactions : list Reaction)
  | Settled (o : Outcome).

Inductive Job :=
  | ReactionJob (k : Reaction) (o : Outcome)
  | ResolveThenableJob (target source : PromiseRef).

(** An item of the LRU store: the entry, the time it was set and its
    maximum age. *)
Record Hit := { hit_value : EntryRef; hit_now : Z; hit_maxAge : Z }.

(** One invocation of a fetch callback and the promise it returned. *)
Record FetchCall := {
  fc_callback : Callback;
  fc_headers : Headers;
  fc_promise : PromiseRef
}.

(** One call to the cold storage and the promise it returned. *)
Inductive ColdCall :=
  | ColdGet (url : string) (p : PromiseRef)
  | ColdSet (url : string) (res : Value) (ttl : Z) (p : PromiseRef).

Record State := {
  config : Config;
  storage : gmap string Hit;
  entries : list Entry;
  responses : list Response;
  promises : list PromiseState;
  microtasks : list Job;
  clock : Z;                      (* Date.now() *)
  randoms : list Z;               (* the coming values of Math.random()*2000 *)
  fetchLog : list FetchCall;
  coldLog : list ColdCall
}.

Definition set_storage (f : gmap string Hit -> gmap string Hit) (s : State) : State :=
  {| config := config s; storage := f (storage s); entries := entries s;
     responses := responses s; promises := promises s;
     microtasks := microtasks s; clock := clock s; randoms := randoms s;
     fetchLog := fetchLog s; coldLog := coldLog s |}.

Definition set_entries (f : list Entry -> list Entry) (s : State) : State :=
  {| config := config s; storage := storage s; entries := f (entries s);
     responses := responses s; promises := promises s;
     microtasks := microtasks s; clock := clock s; randoms := randoms s;
     fetchLog := fetchLog s; coldLog := coldLog s |}.

Definition set_responses (f : list Response -> list Response) (s : State) : State :=
  {| config := config s; storage := storage s; entries := entries s;
     responses := f (responses s); promises := promises s;
     microtasks := microtasks s; clock := clock s; randoms := randoms s;
     fetchLog := fetchLog s; coldLog := coldLog s |}.

Definition set_promises (f : list PromiseState -> list PromiseState) (s : State) : State :=
  {| config := config s; storage := storage s; entries := entries s;
     responses := responses s; promises := f (promises s);
     microtasks := microtasks s; clock := clock s; randoms := randoms s;
     fetchLog := fetchLog s; coldLog := coldLog s |}.

Definition set_microtasks (f : list Job -> list Job) (s : State) : State :=
  {| config := config s; storage := storage s; entries := entries s;
     responses := responses s; promises := promises s;
     microtasks := f (microtasks s); clock := clock s; randoms := randoms s;
     fetchLog := fetchLog s; coldLog := coldLog s |}.

Definition set_clock (f : Z -> Z) (s : State) : State :=
  {| config := config s; storage := storage s; entries := entries s;
     responses := responses s; promises := promises s;
     microtasks := microtasks s; clock := f (clock s); randoms := randoms s;
     fetchLog := fetchLog s; coldLog := coldLog s |}.

Definition set_randoms (f : list Z -> list Z) (s : State) : State :=
  {| config := config s; storage := storage s; entries := entries s;
     responses := responses s; promises := promises s;
     microtasks := microtasks s; clock := clock s; randoms := f (randoms s);
     fetchLog := fetchLog s; coldLog := coldLog s |}.

Definition set_fetchLog (f : list FetchCall -> list FetchCall) (s : State) : State :=
  {| config := config s; storage := storage s; entries := entries s;
     responses := responses s; promises := promises s;
     microtasks := microtasks s; clock := clock s; randoms := randoms s;
     fetchLog := f (fetchLog s); coldLog := coldLog s |}.

Definition set_coldLog (f : list ColdCall -> list ColdCall) (s : State) : State :=
  {| config := config s; storage := storage s; entries := entries s;
     responses := responses s; promises := promises s;
     microtasks := microtasks s; clock := clock s; randoms := randoms s;
     fetchLog := fetchLog s; coldLog := f (coldLog s) |}.

(** The state of a cache just built by [new Cache(options)]. *)
Definition initial (options : Options) (now : Z) (rnd : list Z) : State :=
  {| config := constructor options; storage := ∅; entries := [];
     responses := []; promises := []; microtasks := []; clock := now;
     randoms := rnd; fetchLog := []; coldLog := [] |}.

(** *** Promises *)

Definition new_promise (s : State) : PromiseRef * State :=
  (length (promises s), set_promises (fun ps => ps ++ [Pending []]) s).

Definition enqueue (j : Job) (s : State) : State :=
  set_microtasks (fun q => q ++ [j]) s.

(** Registering a reaction on a promise ([PerformPromiseThen]): kept on a
    pending promise, queued as a job on a settled one. *)
Definition subscribe (p : PromiseRef) (k : Reaction) (s : State) : State :=
  match promises s !! p with
  | Some (Pending rs) => set_promises (fun ps => <[p := Pending (rs ++ [k])]> ps) s
  | Some (Settled o) => enqueue (ReactionJob k o) s
  | None => s
  end.

(** [p.then(...)] / [p.catch(...)]: a derived promise, and the handler
    [k derived] registered on [p]. *)
Definition then_ (p : PromiseRef) (k : PromiseRef -> Reaction) (s : State)
  : PromiseRef * State :=
  let '(d, s1) := new_promise s in
  (d, subscribe p (k d) s1).

(** Settling a pending promise queues one job per reaction, in order; a
    settled promise stays as it is. *)
Definition settle (p : PromiseRef) (o : Outcome) (s : State) : State :=
  match promises s !! p with
  | Some (Pending rs) =>
      set_microtasks (fun q => q ++ map (fun k => ReactionJob k o) rs)
        (set_promises (fun ps => <[p := Settled o]> ps) s)
  | _ => s
  end.

(** Resolving [target] with the promise [source], as [return source] in
    an async function does: a job that will subscribe to [source]. *)
Definition resolve_with_promise (target source : PromiseRef) (s : State) : State :=
  enqueue (ResolveThenableJob target source) s.

(** *** The collaborators *)

(** [onCacheMissCallback(headers)]: logged; the returned promise is the
    environment's to settle. *)
Definition call_fetch (cb : Callback) (h : Headers) (s : State) : PromiseRef * State :=
  let '(f, s1) := new_promise s in
  (f, set_fetchLog (fun l => l ++ [{| fc_callback := cb; fc_headers := h; fc_promise := f |}]) s1).

Definition cold_get (url : string) (s : State) : PromiseRef * State :=
  let '(f, s1) := new_promise s in
  (f, set_coldLog (fun l => l ++ [ColdGet url f]) s1).

Definition cold_set (url : string) (res : Value) (t : Z) (s : State) : PromiseRef * State :=
  let '(f, s1) := new_promise s in
  (f, set_coldLog (fun l => l ++ [ColdSet url res t f]) s1).

(** [Math.random()*2000], the next value the environment has in store. *)
Definition random (s : State) : Z * State :=
  match randoms s with
  | j :: _ => (j, set_randoms (fun l => tail l) s)
  | [] => (0, s)
  end.

(** *** The LRU store *)

(** Modelled from the spec: the primary store is the [lru-cache] package,
    which is not part of the repository.  Section 6 of the spec gives its
    contract: [get], [set] with a per-entry age limit, [delete], and a
    dispose callback run on every entry that leaves the store.  The
    capacity bound is the collaborator's own business and is left out: the
    store is taken to stay below its maximum cost. *)

(** The [dispose] option the constructor passes (lines 16-22). *)
Definition dispose (url : string) (cached : EntryRef) (s : State) : State :=
  match entries s !! cached with
  | Some e =>
      if negb (temp e) && truthy (policy e)
      then snd (then_ (promise e) (Dispose url cached) s)
      else s
  | None => s
  end.

(** An item is stale once it is older than its age limit; a limit of zero
    stands for the store-wide [maxAge]. *)
Definition isStale (s : State) (h : Hit) : bool :=
  if hit_maxAge h =? 0
  then negb (lru_maxAge (config s) =? 0) && (lru_maxAge (config s) <? clock s - hit_now h)
  else hit_maxAge h <? clock s - hit_now h.

(** [this._storage.get(url)] with [stale:false]: a stale item is disposed
    of, removed and not returned. *)
Definition storage_get (url : string) (s : State) : option EntryRef * State :=
  match storage s !! url with
  | Some h =>
      if isStale s h
      then (None, set_storage (delete url) (dispose url (hit_value h) s))
      else (Some (hit_value h), s)
  | None => (None, s)
  end.

(** [this._storage.set(url, entry, maxAge)]: the item it replaces is
    disposed of first. *)
Definition storage_set (url : string) (c : EntryRef) (age : Z) (s : State) : State :=
  let s1 := match storage s !! url with
            | Some h => dispose url (hit_value h) s
            | None => s
            end in
  let age' := if age =? 0 then lru_maxAge (config s) else age in
  let now := if age' =? 0 then 0 else clock s in
  set_storage (insert url {| hit_value := c; hit_now := now; hit_maxAge := age' |}) s1.

(** [this._storage.del(url)]. *)
Definition storage_del (url : string) (s : State) : State :=
  match storage s !! url with
  | Some h => set_storage (delete url) (dispose url (hit_value h) s)
  | None => s
  end.

(** Modelled from the spec: [this._storage.forEach(fn)] enumerates the
    current live entries (Section 6); an item past its age limit is not
    visited.  The store's order of enumeration is its own business; the
    model takes the order of the map's keys. *)
Definition storage_live (s : State) : list (string * Hit) :=
  filter (fun kh => isStale s kh.2 = false) (map_to_list (storage s)).

(** Modelled from the spec: [this._storage.reset()] clears the store
    (Section 6); like every entry that leaves the store, each item is handed
    to the dispose callback first. *)
Definition storage_reset (s : State) : State :=
  set_storage (fun _ => ∅)
    (foldl (fun s1 kh => dispose kh.1 (hit_value kh.2) s1) s (map_to_list (storage s))).

(** *** Heaps *)

Definition new_entry (e : Entry) (s : State) : EntryRef * State :=
  (length (entries s), set_entries (fun es => es ++ [e]) s).

Definition new_response (r : Response) (s : State) : ResRef * State :=
  (length (responses s), set_responses (fun rs => rs ++ [r]) s).

Definition update_entry (c : EntryRef) (f : Entry -> Entry) (s : State) : State :=
  match entries s !! c with
  | Some e => set_entries (fun es => <[c := f e]> es) s
  | None => s
  end.

Definition update_response (r : ResRef) (f : Response -> Response) (s : State) : State :=
  match responses s !! r with
  | Some x => set_responses (fun rs => <[r := f x]> rs) s
  | None => s
  end.

Definition with_policy (p : Policy) (e : Entry) : Entry :=
  {| cost := cost e; temp := temp e; isError := isError e; policy := Some p;
     inColdStoarge := inColdStoarge e; promise := promise e |}.

Definition with_inColdStoarge (b : bool) (e : Entry) : Entry :=
  {| cost := cost e; temp := temp e; isError := isError e; policy := policy e;
     inColdStoarge := b; promise := promise e |}.

(** The response object a value stands for, if it is one. *)
Definition res_of (v : Value) : option ResRef :=
  match v with
  | VResponse r => Some r
  | _ => None
  end.

Definition value_of (res : option ResRef) : Value :=
  match res with
  | Some r => VResponse r
  | None => VUndefined
  end.

(** ** The cache *)

(** [_putInColdStorage(url, res, cached)] (lines 116-127).  Every caller
    has checked [cached.policy] before. *)
Definition _putInColdStorage (url : string) (res : Value) (cached : EntryRef) (s : State) : State :=
  match entries s !! cached with
  | Some e =>
      if negb (inColdStoarge e) && _coldStorage (config s) then
        match policy e with
        | Some p =>
            let t := timeToLive p (clock s) in
            if 3600 * 1000 <=? t then
              let s1 := update_entry cached (with_inColdStoarge true) s in
              let '(f, s2) := cold_set url res t s1 in
              snd (then_ f (ColdSetCatch cached) s2)
            else s
        | None => s
        end
      else s
  | None => s
  end.

(** The test of line 93, [cached && cached.policy && !cached.isError]:
    the entry to revalidate and its policy, if there is one. *)
Definition revalidation_target (s : State) (cached : option EntryRef)
  : option (EntryRef * Policy) :=
  match cached with
  | Some c =>
      match entries s !! c with
      | Some e => if isError e then None else option_map (fun p => (c, p)) (policy e)
      | None => None
      end
  | None => None
  end.

(** The tail of [_getResult] (lines 93-113), up to its first [await]. *)
Definition _getResult_fetch (request : Request) (cached : option EntryRef)
    (cb : Callback) (result : PromiseRef) (s : State) : State :=
  match revalidation_target s cached with
  | Some (c, p) =>
      let hdrs := revalidationHeaders p (clock s) request in
      let '(f, s1) := call_fetch cb hdrs s in
      subscribe f (AwaitRevalidation request c hdrs cb result) s1
  | None =>
      let '(f, s1) := call_fetch cb [] s in
      subscribe f (AwaitFetch request result) s1
  end.

(** [_getResult(url, request, cached, onCacheMissCallback)] (lines 83-114):
    the part that runs before the first [await], and the promise of the
    call. *)
Definition _getResult (url : string) (request : Request) (cached : option EntryRef)
    (cb : Callback) (s : State) : PromiseRef * State :=
  let '(result, s1) := new_promise s in
  if _coldStorage (config s1) then
    let '(f, s2) := cold_get url s1 in
    let '(d, s3) := then_ f ColdGetCatch s2 in
    (result, subscribe d (AwaitColdGet url request cached cb result) s3)
  else (result, _getResult_fetch request cached cb result s1).

(** Lines 54-80 of [getCached]: start the coordinator, chain the handlers
    that will store its outcome, mark the key as busy. *)
Definition getCached_miss (url : string) (request : Request) (cached : option EntryRef)
    (cb : Callback) (outer : PromiseRef) (s : State) : State :=
  let '(result, s1) := _getResult url request cached cb s in
  let derived := length (promises s1) in
  let resultPromise := (derived + 1)%nat in
  let s2 := snd (then_ result (ThenStore url resultPromise) s1) in
  let s3 := snd (then_ derived (fun _ => CatchError url resultPromise) s2) in
  let '(t, s4) := new_entry {| cost := 1; temp := true; isError := false;
                               policy := None; inColdStoarge := false;
                               promise := resultPromise |} s3 in
  let s5 := storage_set url t (_busyTimeout (config s4)) s4 in
  resolve_with_promise outer resultPromise s5.

(** [getCached(url, request, onCacheMissCallback)] (lines 31-81): the part
    that runs before the first [await], and the promise of the call.  An
    argument that is [None] or the empty string is falsy. *)
Definition getCached (url : string) (request : option Request) (cb : option Callback)
    (s : State) : PromiseRef * State :=
  let '(outer, s1) := new_promise s in
  match request, cb with
  | Some request, Some cb =>
      if bool_decide (url = "") then (outer, settle outer (Rejected BadCacheArgs) s1)
      else
        let '(cached, s2) := storage_get url s1 in
        match cached with
        | Some c =>
            match entries s2 !! c with
            | Some e =>
                if temp e then (outer, subscribe (promise e) (AwaitTemp url request cb outer) s2)
                else if match policy e with
                        | Some p => satisfiesWithoutRevalidation p (clock s2) request
                        | None => true
                        end
                then (outer, subscribe (promise e) (AwaitHit url c outer) s2)
                else (outer, getCached_miss url request cached cb outer s2)
            | None => (outer, s2)
            end
        | None => (outer, getCached_miss url request None cb outer s2)
        end
  | _, _ => (outer, settle outer (Rejected BadCacheArgs) s1)
  end.

(** [Promise.all(arr)] on an array of promises of the program.  A fresh
    promise [all] is returned; for an empty array it is fulfilled at once
    with the empty array.  Otherwise [then] is called on each element in
    turn, which creates one derived promise per element, numbered from
    [base] on, settled when that element's handler has run.  The counter of
    outstanding elements that the builtin keeps is read off those derived
    promises: it reaches zero in the handler that finds the derived promises
    of all the other elements settled (see [all_element]). *)
Definition promise_all (arr : list PromiseRef) (s : State) : PromiseRef * State :=
  let '(all, s1) := new_promise s in
  match arr with
  | [] => (all, settle all (Fulfilled (VArray [])) s1)
  | _ :: _ =>
      let base := length (promises s1) in
      (all, foldl (fun s2 e => snd (then_ e (AllElement all arr base) s2)) s1 arr)
  end.

(** The loop body of [dump] (lines 132-136) on one item of the store. *)
Definition dump_item (acc : list PromiseRef * State) (kh : string * Hit)
  : list PromiseRef * State :=
  let '(arr, s) := acc in
  match entries s !! hit_value kh.2 with
  | Some e =>
      if negb (temp e) && truthy (policy e)
      then let '(d, s1) := then_ (promise e) (DumpEntry kh.1 (hit_value kh.2)) s in
           (arr ++ [d], s1)
      else (arr, s)
  | None => (arr, s)
  end.

(** [dump()] (lines 129-140): the promise it returns, and the state. *)
Definition dump (s : State) : PromiseRef * State :=
  let '(arr, s1) := foldl dump_item ([], s) (storage_live s) in
  promise_all arr s1.

(** [purge()] (lines 141-143). *)
Definition purge (s : State) : State := storage_reset s.

(** ** Reactions *)

(** The object literal of line 62 and the one of line 74. *)
Definition ready_entry (c : Z) (cold : bool) (pol : Policy) (p : PromiseRef) : Entry :=
  {| cost := c; temp := false; isError := false; policy := Some pol;
     inColdStoarge := cold; promise := p |}.

Definition error_entry (p : PromiseRef) : Entry :=
  {| cost := 30000; temp := false; isError := true; policy := None;
     inColdStoarge := false; promise := p |}.

(** [4000 + (Buffer.isBuffer(res.body) ? res.body.byteLength : 8000)]. *)
Definition cost_of (x : Response) : Z :=
  4000 + match body x with
         | Buffer b => Z.of_nat (length b)
         | NotBuffer => 8000
         end.

(** The [.then] handler of lines 55-71 on the coordinator's result. *)
Definition then_store (url : string) (resultPromise derived : PromiseRef)
    (res : option ResRef) (pol : Policy) (cold : bool) (s : State) : State :=
  let usable :=
    match res with
    | Some r =>
        match responses s !! r with
        | Some x => if truthy (headers x) then Some (r, x) else None
        | None => None
        end
    | None => None
    end in
  match usable with
  | Some (r, x) =>
      let s1 := update_response r (with_headers (responseHeaders pol (clock s))) s in
      let t := timeToLive pol (clock s) in
      if t =? 0 then
        let s2 := storage_del url s1 in
        let s3 := update_response r (stamp "im2-cache" "no-cache") s2 in
        settle derived (Fulfilled (VResponse r)) s3
      else
        let s2 := update_response r (stamp "im2-cache" (if cold then "cold" else "miss")) s1 in
        let '(c, s3) := new_entry (ready_entry (cost_of x) cold pol resultPromise) s2 in
        let '(jitter, s4) := random s3 in
        let s5 := storage_set url c (t + jitter) s4 in
        settle derived (Fulfilled (VResponse r)) s5
  | None =>
      settle derived (Rejected (EmptyResult url)) (storage_del url s)
  end.

(** The [.catch] handler of lines 72-76. *)
Definition catch_error (url : string) (resultPromise : PromiseRef) (err : Error)
    (s : State) : State :=
  let '(c, s1) := new_entry (error_entry resultPromise) s in
  let s2 := storage_set url c (_errorTimeout (config s1)) s1 in
  settle resultPromise (Rejected err) s2.

(** Lines 43-50: a stored response is served. *)
Definition serve_hit (url : string) (cached : EntryRef) (outer : PromiseRef)
    (v : Value) (s : State) : State :=
  match entries s !! cached with
  | Some e =>
      match policy e with
      | Some p =>
          let s1 := _putInColdStorage url v cached s in
          match v with
          | VResponse r =>
              let s2 := update_response r
                          (fun x => with_ttl (timeToLive p (clock s))
                                      (with_headers
                                         (set_header "im2-cache" "hit"
                                            (responseHeaders p (clock s))) x)) s1 in
              settle outer (Fulfilled v) s2
          | _ => settle outer (Rejected TypeError) s1
          end
      | None => settle outer (Fulfilled v) s
      end
  | None => s
  end.

(** Lines 97-104: the answer to a revalidation request has arrived. *)
Definition revalidated (request : Request) (cached : EntryRef) (hdrs : Headers)
    (cb : Callback) (result : PromiseRef) (v : Value) (s : State) : State :=
  match entries s !! cached with
  | Some e =>
      match policy e with
      | Some p =>
          let res := res_of v in
          let '(pol, modified) :=
            revalidatedPolicy p (clock s) hdrs (r ← res; responses s !! r) in
          let s1 := update_entry cached (with_policy pol) s in
          if negb modified then subscribe (promise e) (AwaitStored pol result) s1
          else
            match r ← res; responses s !! r with
            | Some x =>
                if status x =? 304 then
                  let '(f, s2) := call_fetch cb [] s1 in
                  subscribe f (AwaitRefetch pol result) s2
                else settle result (Fulfilled (VResult res pol false)) s1
            | None => settle result (Rejected TypeError) s1
            end
      | None => settle result (Rejected TypeError) s
      end
  | None => s
  end.

(** Lines 108-113: the answer to an unconditional fetch has arrived. *)
Definition fetched (request : Request) (result : PromiseRef) (v : Value)
    (s : State) : State :=
  match r ← res_of v; x ← responses s !! r; Some (r, x) with
  | Some (r, x) =>
      if status x =? 304 then settle result (Rejected UnexpectedRevalidation) s
      else settle result
             (Fulfilled (VResult (Some r) (newPolicy (clock s) request x) false)) s
  | None => settle result (Rejected TypeError) s
  end.

(** Lines 86-91 and on: the cold storage has answered. *)
Definition cold_answered (url : string) (request : Request) (cached : option EntryRef)
    (cb : Callback) (result : PromiseRef) (v : Value) (s : State) : State :=
  match r ← res_of v; x ← responses s !! r; Some (r, x) with
  | Some (r, x) =>
      settle result
        (Fulfilled (VResult (Some r) (newPolicy (clock s) request x) true)) s
  | None => _getResult_fetch request cached cb result s
  end.

(** The value a fulfilled promise holds; [undefined] for any other. *)
Definition fulfilment (s : State) (p : PromiseRef) : Value :=
  match promises s !! p with
  | Some (Settled (Fulfilled v)) => v
  | _ => VUndefined
  end.

Definition is_settled (s : State) (p : PromiseRef) : bool :=
  match promises s !! p with
  | Some (Settled _) => true
  | _ => false
  end.

(** The handlers [Promise.all] registers on an element.  On fulfilment:
    if every other element's handler has run (their derived promises, all
    but [derived], are settled), [all] is resolved with the array of the
    elements' values, which has no effect if a rejection has settled it
    before; on rejection: [all] is rejected.  Either handler returns
    [undefined], which fulfils [derived]. *)
Definition all_element (all : PromiseRef) (arr : list PromiseRef) (base derived : PromiseRef)
    (o : Outcome) (s : State) : State :=
  match o with
  | Fulfilled _ =>
      let others := filter (fun d => d <> derived) (seq base (length arr)) in
      let s1 := if forallb (is_settled s) others
                then settle all (Fulfilled (VArray (map (fulfilment s) arr))) s
                else s in
      settle derived (Fulfilled VUndefined) s1
  | Rejected e =>
      settle derived (Fulfilled VUndefined) (settle all (Rejected e) s)
  end.

(** What a reaction does when the promise it waits for has settled. *)
Definition run_reaction (k : Reaction) (o : Outcome) (s : State) : State :=
  match k, o with
  | AwaitTemp url request cb outer, Fulfilled _ =>
      let '(p, s1) := getCached url (Some request) (Some cb) s in
      resolve_with_promise outer p s1
  | AwaitTemp _ _ _ outer, Rejected e => settle outer (Rejected e) s
  | AwaitHit url cached outer, Fulfilled v => serve_hit url cached outer v s
  | AwaitHit _ _ outer, Rejected e => settle outer (Rejected e) s
  | ThenStore url resultPromise derived, Fulfilled (VResult res pol cold) =>
      then_store url resultPromise derived res pol cold s
  | ThenStore url _ derived, Fulfilled (VResponse _) =>
      settle derived (Rejected (EmptyResult url)) (storage_del url s)
  | ThenStore url _ derived, Fulfilled (VArray _) =>
      settle derived (Rejected (EmptyResult url)) (storage_del url s)
  | ThenStore _ _ derived, Fulfilled VUndefined => settle derived (Rejected TypeError) s
  | ThenStore _ _ derived, Rejected e => settle derived (Rejected e) s
  | CatchError _ resultPromise, Fulfilled v => settle resultPromise (Fulfilled v) s
  | CatchError url resultPromise, Rejected e => catch_error url resultPromise e s
  | Adopt target, o => settle target o s
  | ColdGetCatch derived, Fulfilled v => settle derived (Fulfilled v) s
  | ColdGetCatch derived, Rejected _ => settle derived (Fulfilled VUndefined) s
  | AwaitColdGet url request cached cb result, Fulfilled v =>
      cold_answered url request cached cb result v s
  | AwaitColdGet _ _ _ _ result, Rejected e => settle result (Rejected e) s
  | AwaitRevalidation request cached hdrs cb result, Fulfilled v =>
      revalidated request cached hdrs cb result v s
  | AwaitRevalidation _ _ _ _ result, Rejected e => settle result (Rejected e) s
  | AwaitStored pol result, Fulfilled v =>
      settle result (Fulfilled (VResult (res_of v) pol false)) s
  | AwaitStored _ result, Rejected e => settle result (Rejected e) s
  | AwaitRefetch pol result, Fulfilled v =>
      settle result (Fulfilled (VResult (res_of v) pol false)) s
  | AwaitRefetch _ result, Rejected e => settle result (Rejected e) s
  | AwaitFetch request result, Fulfilled v => fetched request result v s
  | AwaitFetch _ result, Rejected e => settle result (Rejected e) s
  | ColdSetCatch _ derived, Fulfilled v => settle derived (Fulfilled v) s
  | ColdSetCatch cached derived, Rejected _ =>
      settle derived (Fulfilled VUndefined)
        (update_entry cached (with_inColdStoarge false) s)
  | Dispose url cached derived, Fulfilled v =>
      settle derived (Fulfilled VUndefined) (_putInColdStorage url v cached s)
  | Dispose _ _ derived, Rejected e => settle derived (Rejected e) s
  | DumpEntry url cached derived, Fulfilled v =>
      settle derived (Fulfilled VUndefined) (_putInColdStorage url v cached s)
  | DumpEntry _ _ derived, Rejected e => settle derived (Rejected e) s
  | AllElement all arr base derived, o => all_element all arr base derived o s
  end.

Definition run_job (j : Job) (s : State) : State :=
  match j with
  | ReactionJob k o => run_reaction k o s
  | ResolveThenableJob target source => subscribe source (Adopt target) s
  end.

(** ** The event loop *)

(** One microtask: the job at the head of the queue. *)
Definition microtask (s : State) : State :=
  match microtasks s with
  | j :: q => run_job j (set_microtasks (fun _ => q) s)
  | [] => s
  end.

(** Up to [n] microtasks, stopping when the queue is empty. *)
Fixpoint drain (n : nat) (s : State) : State :=
  match n with
  | O => s
  | S n' =>
      match microtasks s with
      | [] => s
      | _ :: _ => drain n' (microtask s)
      end
  end.

(** How the environment settles a promise it has returned (from a fetch
    callback or from the cold storage): with a fresh response object, with
    [undefined], or with a failure. *)
Inductive Settlement :=
  | Resolves (r : option Response)
  | Rejects (code : nat).

Definition external (p : PromiseRef) (o : Settlement) (s : State) : State :=
  match o with
  | Resolves (Some x) =>
      let '(r, s1) := new_response x s in
      settle p (Fulfilled (VResponse r)) s1
  | Resolves None => settle p (Fulfilled VUndefined) s
  | Rejects code => settle p (Rejected (External code)) s
  end.

(** The wall clock moves on. *)
Definition elapse (dt : Z) (s : State) : State := set_clock (fun t => t + dt) s.

(** Everything that can happen to a cache. *)
Inductive Event :=
  | Call (url : string) (request : option Request) (cb : option Callback)
  | Dump
  | Purge
  | Settles (p : PromiseRef) (o : Settlement)
  | Elapses (dt : Z)
  | Microtask.

Definition step (ev : Event) (s : State) : State :=
  match ev with
  | Call url request cb => snd (getCached url request cb s)
  | Dump => snd (dump s)
  | Purge => purge s
  | Settles p o => external p o s
  | Elapses dt => elapse dt s
  | Microtask => microtask s
  end.

Definition run (evs : list Event) (s : State) : State := foldl (fun s ev => step ev s) s evs.

(** ** Vocabulary for the statements *)

(** A call of [getCached] for [url] is in flight: lines 54-80 have run.
    The coordinator's promise [result] has the handler of lines 55-71
    chained to it, the promise [derived] of that handler has the handler of
    lines 72-76, the call's own promise [outer] waits for [resultPromise],
    the store holds the busy marker of line 79, and no microtask is left. *)
Record in_flight (s : State) (url : string)
    (outer result derived resultPromise : PromiseRef) : Prop := {
  flight_result :
    promises s !! result = Some (Pending [ThenStore url resultPromise derived]);
  flight_derived :
    promises s !! derived = Some (Pending [CatchError url resultPromise]);
  flight_promise :
    promises s !! resultPromise = Some (Pending [Adopt outer]);
  flight_outer : promises s !! outer = Some (Pending []);
  flight_marker :
    exists h e, storage s !! url = Some h /\ entries s !! hit_value h = Some e /\
                temp e = true;
  flight_quiet : microtasks s = []
}.

(** The reaction [k] is a coordinator waiting for the promise a fetch
    callback returned, and [result] is that coordinator's promise. *)
Definition awaits_fetch (k : Reaction) (result : PromiseRef) : Prop :=
  match k with
  | AwaitFetch _ g | AwaitRefetch _ g | AwaitRevalidation _ _ _ _ g => g = result
  | _ => False
  end.

(** What a caller can see of a response [x'] that the cache has stamped:
    it is the response [x] with its headers replaced by the headers [hdrs]
    and the [im2-cache] header reading [mark]. *)
Definition stamped (mark : string) (hdrs : Headers) (x x' : Response) : Prop :=
  status x' = status x /\
  body x' = body x /\
  exists h', headers x' = Some h' /\
             get_header "im2-cache" h' = Some mark /\
             forall k, k <> "im2-cache" -> get_header k h' = get_header k hdrs.

(** What the store sees of an entry object [e'] whose policy has been
    replaced in place: the new policy, and every other field as in [e]. *)
Definition policy_replaced (pol : Policy) (e e' : Entry) : Prop :=
  policy e' = Some pol /\
  cost e' = cost e /\ temp e' = temp e /\ isError e' = isError e /\
  inColdStoarge e' = inColdStoarge e /\ promise e' = promise e.

(** The microtask queue run until it is empty; the fuel is ample for the
    runs considered, each of which is shown to end with an empty queue. *)
Definition quiesce (s : State) : State := drain 64 s.

(** The [inColdStoarge] flag of the entry object at [c], if there is one. *)
Definition flag (s : State) (c : EntryRef) : option bool :=
  inColdStoarge <$> entries s !! c.

(** A call to the cold storage that only reads. *)
Definition is_read (w : ColdCall) : Prop :=
  match w with
  | ColdGet _ _ => True
  | ColdSet _ _ _ _ => False
  end.

(** A transition is calm when it sets no [inColdStoarge] flag, creates
    no entry object whose flag is on, and writes nothing to the cold
    storage; [calm_except X] allows an entry object created with the flag
    on, but only if [X] holds. *)
Definition calm_except (X : Prop) (s s' : State) : Prop :=
  (forall c, flag s c = Some false -> flag s' c = Some false) /\
  (forall c, flag s c = None -> flag s' c = Some true -> X) /\
  exists l, coldLog s' = coldLog s ++ l /\ Forall is_read l.

Definition calm (s s' : State) : Prop := calm_except False s s'.

(** A transition that leaves the entry objects and the cold-storage log
    as they are. *)
Definition same_heap (s s' : State) : Prop :=
  entries s' = entries s /\ coldLog s' = coldLog s.

(** A transition demotes the entry object at [c]: the object's flag was
    off, a cold storage is configured, the time-to-live of the object's
    policy is at least one hour, and the transition issues one write to the
    cold storage, with that time-to-live; no other flag is set and no entry
    object is created. *)
Definition demotion (s s' : State) (c : EntryRef) : Prop :=
  exists e p url res f,
    entries s !! c = Some e /\
    inColdStoarge e = false /\
    _coldStorage (config s) = true /\
    policy e = Some p /\
    3600 * 1000 <= timeToLive p (clock s) /\
    coldLog s' = coldLog s ++ [ColdSet url res (timeToLive p (clock s)) f] /\
    (forall c', c' <> c -> flag s c' = Some false -> flag s' c' = Some false) /\
    (forall c', flag s c' = None -> flag s' c' = None).

(** The handler of lines 55-71 is about to run on a coordinator's result
    that is marked as read back from the cold storage. *)
Definition recovering (s : State) : Prop :=
  exists url resultPromise derived res pol q,
    microtasks s =
      ReactionJob (ThenStore url resultPromise derived)
        (Fulfilled (VResult res pol true)) :: q.

(** Several calls of [getCached] for one key made in a row, within one
    synchronous run: the promises of the calls, in order, and the state. *)
Fixpoint getCached_all (url : string) (calls : list (Request * Callback)) (s : State)
  : list PromiseRef * State :=
  match calls with
  | [] => ([], s)
  | (request, cb) :: rest =>
      let '(p, s1) := getCached url (Some request) (Some cb) s in
      let '(ps, s2) := getCached_all url rest s1 in
      (p :: ps, s2)
  end.

(** *** A fetch under way *)

(** What may happen while the fetch that a call for [url] has started is
    under way and the busy marker is live: further calls for the key, the
    passing of time, microtasks, and the cold storage answering the call's
    read [g] with a miss.  (A copy from the cold storage, the answer of the
    fetch callback and [purge] end that phase; calls for other keys and
    [dump] are left out.) *)
Definition while_pending (url : string) (g : option PromiseRef) (ev : Event) : Prop :=
  match ev with
  | Call url' (Some _) (Some _) => url' = url
  | Settles p (Resolves None) | Settles p (Rejects _) => g = Some p
  | Elapses dt => 0 <= dt
  | Microtask => True
  | _ => False
  end.

(** The time that passes in a sequence of events. *)
Fixpoint elapsed (evs : list Event) : Z :=
  match evs with
  | [] => 0
  | Elapses dt :: rest => dt + elapsed rest
  | _ :: rest => elapsed rest
  end.

(** The calls made in a sequence of events, and the calls whose
    continuations (lines 38-39) wait in a list of reactions. *)
Definition calls_of (evs : list Event) : list (Request * Callback) :=
  omap (fun ev => match ev with
                  | Call _ (Some request) (Some cb) => Some (request, cb)
                  | _ => None
                  end) evs.

Definition waiters_of (ws : list Reaction) : list (Request * Callback) :=
  omap (fun k => match k with
                 | AwaitTemp _ request cb _ => Some (request, cb)
                 | _ => None
                 end) ws.

(** The read of the cold storage that the last call has issued, if a cold
    storage is configured. *)
Definition cold_read (s : State) : option PromiseRef :=
  if _coldStorage (config s) then
    match last (coldLog s) with
    | Some (ColdGet _ p) => Some p
    | _ => None
    end
  else None.

(** How far the first call's coordinator has come: the read of the cold
    storage [g] is outstanding; it has settled and its catch handler (line
    85) is queued; that handler has run and the continuation of line 85 is
    queued; the fetch callback has been invoked and its promise [f] is
    outstanding. *)
Inductive Stage :=
  | Reading (g d : PromiseRef)
  | ReadSettled (g d : PromiseRef) (o : Outcome)
  | ReadCaught (g d : PromiseRef)
  | Fetching (f : PromiseRef).

Definition stage_holds (url : string) (request : Request) (cb : Callback)
    (fl0 : list FetchCall) (outer result resultPromise : PromiseRef)
    (g : option PromiseRef) (rt : list Job) (st : Stage) (s : State) : Prop :=
  let continuation := AwaitColdGet url request None cb result in
  match st with
  | Reading gp d =>
      g = Some gp /\
      promises s !! gp = Some (Pending [ColdGetCatch d]) /\
      promises s !! d = Some (Pending [continuation]) /\
      gp <> resultPromise /\ gp <> outer /\ d <> resultPromise /\ d <> outer /\
      microtasks s = rt /\
      fetchLog s = fl0
  | ReadSettled gp d o =>
      g = Some gp /\
      promises s !! gp = Some (Settled o) /\
      (o = Fulfilled VUndefined \/ exists err, o = Rejected err) /\
      promises s !! d = Some (Pending [continuation]) /\
      d <> resultPromise /\ d <> outer /\
      microtasks s = rt ++ [ReactionJob (ColdGetCatch d) o] /\
      fetchLog s = fl0
  | ReadCaught gp d =>
      g = Some gp /\
      (exists o, promises s !! gp = Some (Settled o)) /\
      microtasks s = rt ++ [ReactionJob continuation (Fulfilled VUndefined)] /\
      fetchLog s = fl0
  | Fetching f =>
      (forall gp, g = Some gp -> exists o, promises s !! gp = Some (Settled o)) /\
      promises s !! f = Some (Pending [AwaitFetch request result]) /\
      f <> resultPromise /\ f <> outer /\
      microtasks s = rt /\
      fetchLog s =
        fl0 ++ [{| fc_callback := cb; fc_headers := []; fc_promise := f |}]
  end.

(** The first call for [url], made at time [t0] with the fetch log [fl0],
    is pending: the store holds its busy marker, live until
    [t0 + busyTimeout]; the marker's promise [resultPromise] is pending with
    the reactions [ws]; the call's own promise [outer] is pending; the job
    that will make [outer] follow [resultPromise] is queued or has run; and
    the coordinator is at one of its stages. *)
Record pending_call (url : string) (request : Request) (cb : Callback)
    (fl0 : list FetchCall) (t0 : Z) (outer result resultPromise : PromiseRef)
    (g : option PromiseRef) (s : State) (ws : list Reaction) : Prop := {
  pc_busy : 0 < _busyTimeout (config s);
  pc_time : t0 <= clock s;
  pc_marker :
    exists c e,
      storage s !! url =
        Some {| hit_value := c; hit_now := t0; hit_maxAge := _busyTimeout (config s) |} /\
      entries s !! c = Some e /\ temp e = true /\ promise e = resultPromise;
  pc_shared : promises s !! resultPromise = Some (Pending ws);
  pc_outer : promises s !! outer = Some (Pending []);
  pc_apart : resultPromise <> outer;
  pc_stage :
    exists rt st,
      (rt = [] \/ rt = [ResolveThenableJob outer resultPromise]) /\
      stage_holds url request cb fl0 outer result resultPromise g rt st s
}.

(** An answer of the cold storage that is no copy: [undefined], or a
    failure (which line 85 logs and ignores). *)
Definition is_miss (o : Settlement) : Prop :=
  match o with
  | Resolves (Some _) => False
  | _ => True
  end.

(** The read of the cold storage that is outstanding, if a cold storage is
    configured, is answered with [o], and the microtasks run. *)
Definition cold_answer (o : Settlement) (s : State) : State :=
  if _coldStorage (config s) then
    match last (coldLog s) with
    | Some (ColdGet _ p) => quiesce (external p o s)
    | _ => s
    end
  else s.

End Machine.

(** ** A small calculator, for running the machine *)

Module Toy.

(** Freshness from a [max-age] header (seconds, decimal), validation by
    [etag]. *)
Record lifetime := {
  born : Z;
  max_age : Z;
  etag : option string;
  kept : Headers
}.

Fixpoint decimal (s : string) (acc : Z) : Z :=
  match s with
  | EmptyString => acc
  | String c s' => decimal s' (10 * acc + (Z.of_nat (Ascii.nat_of_ascii c) - 48))
  end.

Definition header_of (k : string) (x : Response) : option string :=
  h ← headers x; get_header k h.

Definition make (now : Z) (x : Response) : lifetime :=
  {| born := now;
     max_age := match header_of "max-age" x with
                | Some v => 1000 * decimal v 0
                | None => 0
                end;
     etag := header_of "etag" x;
     kept := default [] (headers x) |}.

Definition remaining (p : lifetime) (now : Z) : Z := Z.max 0 (born p + max_age p - now).

Definition same_tag (a b : option string) : bool :=
  match a, b with
  | Some a, Some b => String.eqb a b
  | None, None => true
  | _, _ => false
  end.

#[export] Instance calculator : PolicyCalculator := {|
  Policy := lifetime;
  newPolicy now _ x := make now x;
  satisfiesWithoutRevalidation p now request :=
    (0 <? remaining p now) && negb (truthy (get_header "no-cache" (req_headers request)));
  responseHeaders p _ := kept p;
  timeToLive p now := remaining p now;
  revalidationHeaders p _ request :=
    match etag p with
    | Some t => set_header "if-none-match" t (req_headers request)
    | None => req_headers request
    end;
  revalidatedPolicy p now _ res :=
    match res with
    | Some x =>
        if same_tag (header_of "etag" x) (etag p)
        then ({| born := now; max_age := max_age p; etag := etag p; kept := kept p |}, false)
        else (make now x, true)
    | None => (p, true)
    end
|}.

Definition get : Request := {| req_method := "GET"; req_headers := [] |}.

Definition page (st : Z) (h : Headers) : Response :=
  {| status := st; headers := Some h; body := NotBuffer; ttl := None |}.

End Toy.

(** ** Concrete runs *)

Module Scenario.
Import Toy.

Definition nocache : Request :=
  {| req_method := "GET"; req_headers := [("no-cache", "1")] |}.

Definition with_cold : Options :=
  {| opt_busyTimeout := None; opt_errorTimeout := None; opt_size := None;
     opt_maxAge := None; opt_coldStorage := true |}.

(** A cache just built, at time 1000, without and with a cold storage. *)
Definition fresh : State := initial no_options 1000 [7; 8; 9].
Definition fresh_cold : State := initial with_cold 1000 [7; 8; 9].

Definition uncacheable : Response := page 200 [("max-age", "0")].
Definition short_lived : Response := page 200 [("max-age", "10")].
Definition cacheable : Response := page 200 [("max-age", "7200")].
Definition headerless : Response :=
  {| status := 200; headers := None; body := NotBuffer; ttl := None |}.

(** A page of three bytes that lives two hours. *)
Definition binary : Response :=
  {| status := 200; headers := Some [("max-age", "7200")];
     body := Buffer [Byte.x68; Byte.x69; Byte.x21]; ttl := None |}.

(** One call for the key ["k"] on the fresh cache: its promise is 0, the
    coordinator's 1, the fetch callback's 2, the handlers' 3 and 4. *)
Definition calling : State := quiesce (getCached "k" (Some get) (Some 1%nat) fresh).2.

(** The fetch has answered with a response that lives two hours. *)
Definition ready : State := quiesce (external 2%nat (Resolves (Some cacheable)) calling).

Definition stored_hit : Hit :=
  {| hit_value := 1%nat; hit_now := 1000; hit_maxAge := 7200007 |}.
Definition stored_policy : lifetime := make 1000 cacheable.
Definition stored (p : nat) : Entry := ready_entry 12000 false stored_policy p.
Definition served : Response :=
  page 200 [("max-age", "7200"); ("im2-cache", "miss")].

(** The same with a cold storage that has no copy: the call's promise is
    0, the coordinator's 1, the cold read's 2, the fetch callback's 6. *)
Definition calling_cold : State :=
  cold_answer (Resolves None) (quiesce (getCached "k" (Some get) (Some 1%nat) fresh_cold).2).
Definition ready_cold : State :=
  quiesce (external 6%nat (Resolves (Some cacheable)) calling_cold).

(** A second call that hits, before its continuation has run. *)
Definition hit_queued : State := (getCached "k" (Some get) (Some 2%nat) ready_cold).2.

(** The cold storage has a copy that lives ten seconds. *)
Definition recovered : State :=
  quiesce (external 2%nat (Resolves (Some short_lived))
             (quiesce (getCached "k" (Some get) (Some 1%nat) fresh_cold).2)).

End Scenario.

(** ** Symbolic execution *)

(** An operation on the state unfolds only once the state it is applied
    to is known, so that [cbn] evaluates a run in call-by-value order. *)
Arguments set_storage {PC} f !s /.
Arguments set_entries {PC} f !s /.
Arguments set_responses {PC} f !s /.
Arguments set_promises {PC} f !s /.
Arguments set_microtasks {PC} f !s /.
Arguments set_clock {PC} f !s /.
Arguments set_randoms {PC} f !s /.
Arguments set_fetchLog {PC} f !s /.
Arguments set_coldLog {PC} f !s /.
Arguments new_promise {PC} !s /.
Arguments enqueue {PC} j !s /.
Arguments subscribe {PC} p k !s /.
Arguments then_ {PC} p k !s /.
Arguments settle {PC} p o !s /.
Arguments resolve_with_promise {PC} target source !s /.
Arguments call_fetch {PC} cb h !s /.
Arguments cold_get {PC} url !s /.
Arguments cold_set {PC} url res t !s /.
Arguments random {PC} !s /.
Arguments dispose {PC} url cached !s /.
Arguments isStale {PC} !s !h /.
Arguments storage_get {PC} url !s /.
Arguments storage_set {PC} url c age !s /.
Arguments storage_del {PC} url !s /.
Arguments new_entry {PC} e !s /.
Arguments new_response {PC} r !s /.
Arguments update_entry {PC} c f !s /.
Arguments update_response {PC} r f !s /.
Arguments _putInColdStorage {PC} url res cached !s /.
Arguments revalidation_target {PC} !s !cached /.
Arguments _getResult_fetch {PC} request cached cb result !s /.
Arguments _getResult {PC} url request cached cb !s /.
Arguments getCached_miss {PC} url request cached cb outer !s /.
Arguments getCached {PC} url request cb !s /.
Arguments then_store {PC} url resultPromise derived res pol cold !s /.
Arguments catch_error {PC} url resultPromise err !s /.
Arguments serve_hit {PC} url cached outer v !s /.
Arguments revalidated {PC} request cached hdrs cb result v !s /.
Arguments fetched {PC} request result v !s /.
Arguments cold_answered {PC} url request cached cb result v !s /.
Arguments storage_reset {PC} !s /.
Arguments promise_all {PC} !arr !s /.
Arguments dump_item {PC} !acc !kh /.
Arguments dump {PC} !s /.
Arguments purge {PC} !s /.
Arguments all_element {PC} all arr base derived !o !s /.
Arguments run_reaction {PC} !k !o !s /.
Arguments run_job {PC} !j !s /.
Arguments microtask {PC} !s /.
Arguments drain {PC} !n !s /.
Arguments external {PC} p !o !s /.
Arguments elapse {PC} dt !s /.
Arguments step {PC} !ev !s /.
Arguments quiesce {PC} !s /.
Arguments cold_answer {PC} o !s /.

Section Verification.
Context {PC : PolicyCalculator}.

Lemma lookup_app_plus {A} (l l' : list A) (i : nat) :
  (l ++ l') !! (length l + i)%nat = l' !! i.
Proof. rewrite lookup_app_r by lia. f_equal. lia. Qed.

Lemma lookup_app_len {A} (l l' : list A) : (l ++ l') !! length l = l' !! 0%nat.
Proof. rewrite lookup_app_r by lia. f_equal. lia. Qed.

Lemma insert_app_len {A} (l l' : list A) (x : A) :
  <[length l := x]> (l ++ l') = l ++ <[0%nat := x]> l'.
Proof. rewrite <- (insert_app_r l l' 0). f_equal. lia. Qed.

Lemma lookup_app_at {A} (l l' : list A) (j k : nat) :
  j = (length l + k)%nat -> (l ++ l') !! j = l' !! k.
Proof. intros ->. apply lookup_app_plus. Qed.

Lemma insert_app_at {A} (l l' : list A) (j k : nat) (x : A) :
  j = (length l + k)%nat -> <[j := x]> (l ++ l') = l ++ <[k := x]> l'.
Proof. intros ->. apply insert_app_r. Qed.

(** Assigning a header and reading headers back. *)
Lemma get_set_header (k v : string) (h : Headers) :
  get_header k (set_header k v h) = Some v.
Proof.
  induction h as [|[k' v'] h IH]; cbn.
  - rewrite String.eqb_refl. reflexivity.
  - destruct (String.eqb k k') eqn:E; cbn; rewrite ?String.eqb_refl, ?E; auto.
Qed.

Lemma get_set_header_other (k k' v : string) (h : Headers) :
  k' <> k -> get_header k' (set_header k v h) = get_header k' h.
Proof.
  intros Hne. induction h as [|[k0 v0] h IH]; cbn.
  - apply String.eqb_neq in Hne. rewrite Hne. reflexivity.
  - destruct (String.eqb k k0) eqn:E; cbn.
    + apply String.eqb_eq in E. subst k0.
      apply String.eqb_neq in Hne. rewrite Hne. reflexivity.
    + destruct (String.eqb k' k0); auto.
Qed.

(** A response whose headers were replaced and one header assigned shows
    exactly that. *)
Lemma stamped_with_headers (mark : string) (hdrs : Headers) (x : Response) :
  stamped mark hdrs x (with_headers (set_header "im2-cache" mark hdrs) x).
Proof.
  split; [reflexivity|]. split; [reflexivity|].
  eexists. split; [reflexivity|].
  split; [apply get_set_header | intros k Hk; apply get_set_header_other; exact Hk].
Qed.

Lemma stamped_with_ttl (mark : string) (hdrs : Headers) (x : Response) (t : Z) :
  let x' := with_ttl t (with_headers (set_header "im2-cache" mark hdrs) x) in
  stamped mark hdrs x x' /\ ttl x' = Some t.
Proof.
  split; [|reflexivity].
  split; [reflexivity|]. split; [reflexivity|].
  eexists. split; [reflexivity|].
  split; [apply get_set_header | intros k Hk; apply get_set_header_other; exact Hk].
Qed.

(** Closing a goal [stamped mark hdrs x x'] on a response computed by a
    run. *)
Ltac observe :=
  split; [reflexivity|]; split; [reflexivity|];
  eexists; split; [reflexivity|];
  split; [apply get_set_header
         | let k := fresh "k" in
           let Hk := fresh "Hk" in
           intros k Hk; apply get_set_header_other; exact Hk].

(** Evaluation of the operations whose state argument is known. *)
Ltac safe := cbn
  [new_promise set_promises set_microtasks
   set_storage set_entries set_responses set_clock set_randoms set_fetchLog set_coldLog
   then_ enqueue resolve_with_promise call_fetch cold_get cold_set
   subscribe settle random dispose isStale storage_get storage_set storage_del
   update_entry update_response _putInColdStorage revalidation_target
   _getResult_fetch _getResult
   getCached_miss getCached
   then_store catch_error serve_hit revalidated fetched cold_answered
   new_entry new_response ready_entry error_entry with_policy with_inColdStoarge
   run_reaction run_job microtask drain quiesce cold_answer external elapse step run foldl
   config storage entries responses promises microtasks clock randoms fetchLog coldLog
   _busyTimeout _errorTimeout lru_max lru_maxAge _coldStorage
   cost temp isError policy inColdStoarge promise
   hit_value hit_now hit_maxAge
   status headers body ttl with_headers with_ttl stamp cost_of
   fst snd res_of value_of truthy negb andb orb app map mbind option_bind option_map].

(** Heaps are kept in the form [old ++ [new; ...]] and references in the
    form [length old + k]. *)
Ltac norm :=
  progress (rewrite <- ?app_assoc, ?length_app, ?length_insert, <- ?Nat.add_assoc;
            cbn [length app Nat.add]).

Ltac eval_lookup l :=
  match goal with
  | |- context [ l !! ?i ] =>
      let v := eval cbn in (l !! i) in change (l !! i) with v
  end.

Ltac eval_insert l i x :=
  let v := eval cbn [insert list_insert] in (<[i := x]> l) in
  change (<[i := x]> l) with v.

Ltac lookup_new :=
  match goal with
  | |- context [ (?l ++ ?l') !! (length ?l + ?i)%nat ] =>
      rewrite (lookup_app_plus l l' i); eval_lookup l'
  | |- context [ (?l ++ ?l') !! (length ?l) ] =>
      rewrite (lookup_app_len l l'); eval_lookup l'
  | |- context [ <[(length ?l + ?i)%nat := ?x]> (?l ++ ?l') ] =>
      rewrite (insert_app_r l l' i x); eval_insert l' i x
  | |- context [ <[length ?l := ?x]> (?l ++ ?l') ] =>
      rewrite (insert_app_len l l' x); eval_insert l' 0%nat x
  end.

Ltac in_range :=
  rewrite ?length_insert, ?length_app; cbn [length];
  first
    [ assumption
    | reflexivity
    | repeat match goal with
             | H : _ <> _ |- _ => clear H
             | H : _ !! _ = _ |- _ => clear H
             end;
      lia ].

Ltac offset tac :=
  first [ tac 0%nat | tac 1%nat | tac 2%nat | tac 3%nat | tac 4%nat | tac 5%nat
        | tac 6%nat | tac 7%nat | tac 8%nat | tac 9%nat | tac 10%nat
        | tac 11%nat | tac 12%nat ].

Ltac lookup_old :=
  match goal with
  | H : ?l !! ?i = Some ?x |- context [ (?l ++ ?l') !! ?i ] =>
      rewrite (lookup_app_l_Some l l' i x H)
  | |- context [ <[?i := ?y]> (<[?i := ?x]> ?l) ] =>
      rewrite (list_insert_insert_eq l i x y)
  | |- context [ <[?i := ?x]> ?l !! ?i ] =>
      rewrite (list_lookup_insert_eq l i x) by in_range
  | H : ?i <> ?j |- context [ <[?i := ?x]> ?l !! ?j ] =>
      rewrite (list_lookup_insert_ne l i j x H)
  | H : ?j <> ?i |- context [ <[?i := ?x]> ?l !! ?j ] =>
      rewrite (list_lookup_insert_ne l i j x (not_eq_sym H))
  | |- context [ (?l ++ ?l') !! ?j ] =>
      rewrite (lookup_app_l l l' j) by in_range
  | |- context [ <[?j := ?y]> (?l ++ ?l') ] =>
      rewrite (insert_app_l l l' j y) by in_range
  | |- context [ (?l ++ ?l') !! ?j ] =>
      let go k := (rewrite (lookup_app_at l l' j k) by in_range) in
      offset go; eval_lookup l'
  | |- context [ <[?j := ?y]> (?l ++ ?l') ] =>
      let go k := (rewrite (insert_app_at l l' j k y) by in_range;
                   eval_insert l' k y) in
      offset go
  end.

Ltac use_hyp :=
  match goal with
  | H : _ = true |- _ => rewrite H
  | H : _ = false |- _ => rewrite H
  | H : _ = None |- _ => rewrite H
  | H : _ = Some _ |- _ => rewrite H
  | H : _ = (_, _) |- _ => rewrite H
  | H : _ = 0 |- _ => rewrite H
  | H : _ = 304 |- _ => rewrite H
  | H : ?x <> "" |- _ => rewrite (bool_decide_eq_false_2 (x = "") H)
  | |- _ => rewrite lookup_insert_eq
  | |- _ => rewrite lookup_delete_eq
  | |- _ => rewrite last_snoc
  end.

Ltac arith :=
  match goal with
  | |- context [ ?a =? ?b ] =>
      first [ rewrite (proj2 (Z.eqb_eq a b)) by lia
            | rewrite (proj2 (Z.eqb_neq a b)) by lia ]
  | |- context [ ?a <? ?b ] =>
      first [ rewrite (proj2 (Z.ltb_lt a b)) by lia
            | rewrite (proj2 (Z.ltb_ge a b)) by lia ]
  | |- context [ ?a <=? ?b ] =>
      first [ rewrite (proj2 (Z.leb_le a b)) by lia
            | rewrite (proj2 (Z.leb_gt a b)) by lia ]
  end.

(** [cbn] leaves a lookup or an update that runs past the known part of a
    list with the local instance of the fixpoint; this restores the
    instance of lists. *)
Ltac restore :=
  match goal with
  | |- context [ @lookup nat ?A (list ?A) ?inst ?i ?l ] =>
      lazymatch inst with
      | @list_lookup _ => fail
      | _ => change (@lookup nat A (list A) inst i l) with (l !! i)
      end
  | |- context [ @insert nat ?A (list ?A) ?inst ?i ?x ?l ] =>
      lazymatch inst with
      | @list_insert _ => fail
      | _ => change (@insert nat A (list A) inst i x l) with (<[i := x]> l)
      end
  end.

Ltac exec1 :=
  first [ progress safe | norm | restore | lookup_new | lookup_old | use_hyp | arith ].
Ltac exec := repeat exec1.

(** The branches of [_putInColdStorage], taken as they come up. *)
Ltac case_cold :=
  first
    [ match goal with
      | |- context [inColdStoarge ?e] => destruct (inColdStoarge e) eqn:?
      end
    | match goal with
      | |- context [_coldStorage ?c] => destruct (_coldStorage c) eqn:?
      end
    | match goal with
      | |- context [3600 * 1000 <=? ?t] => destruct (3600 * 1000 <=? t) eqn:?
      end ].

(** Two references whose contents differ are different. *)
Ltac distinct :=
  repeat match goal with
  | H1 : ?l !! ?i = Some ?x, H2 : ?l !! ?j = Some ?y |- _ =>
      lazymatch goal with
      | _ : i <> j |- _ => fail
      | _ => idtac
      end;
      assert (i <> j) by (intros ->; rewrite H1 in H2; discriminate)
  end.

(** Every reference that is looked up successfully is in range. *)
Ltac bounds :=
  repeat match goal with
  | H : ?l !! ?i = Some _ |- _ =>
      lazymatch goal with
      | _ : (i < length l)%nat |- _ => fail
      | _ => pose proof (lookup_lt_Some _ _ _ H)
      end
  end.

(** Closing a goal that reads a heap after the run. *)
Ltac read :=
  exec;
  repeat (rewrite list_lookup_insert_ne
            by first [ assumption | apply not_eq_sym; assumption | lia ]);
  first
    [ reflexivity
    | eassumption
    | rewrite list_lookup_insert_eq by in_range; reflexivity
    | rewrite lookup_insert_eq; reflexivity
    | rewrite lookup_delete_eq; reflexivity ].

(** Running the state [x] of the context to its value, once, with [tac]. *)
Tactic Notation "evaluate" ident(x) "by" tactic3(tac) :=
  let E := fresh "E" in
  eassert (E : x = _) by (subst x; tac; reflexivity);
  clearbody x; subst x.

(** Projections of a known state, in the hypotheses. *)
Ltac project :=
  cbn [config storage entries responses promises microtasks clock randoms
       fetchLog coldLog hit_value hit_now hit_maxAge] in * |-.

(** Opening a state and its hypotheses. *)
Ltac open_state s :=
  destruct s as [cfg st es rs ps q now rnd fl cl];
  cbn [config storage entries responses promises microtasks clock randoms
       fetchLog coldLog] in * |-;
  subst.


(** ** The constructor's defaults *)

(** C9, as amended: a constructor called without the corresponding option
    uses busyTimeout = 2000 ms, errorTimeout = 200 ms, a maximum total cost
    of 500 * 1024 * 1024 = 524288000 and maxAge = 24 h = 86400000 ms. *)
Theorem constructor_defaults (options : Options) :
  (opt_busyTimeout options = None -> _busyTimeout (constructor options) = 2000) /\
  (opt_errorTimeout options = None -> _errorTimeout (constructor options) = 200) /\
  (opt_size options = None -> lru_max (constructor options) = 524288000) /\
  (opt_maxAge options = None -> lru_maxAge (constructor options) = 24 * 60 * 60 * 1000).
Proof.
  unfold constructor; cbn [_busyTimeout _errorTimeout lru_max lru_maxAge].
  repeat split; intros ->; reflexivity.
Qed.

(** ** Outcomes of the coordinator *)

(** C5, as amended: let a call be in flight with no other call waiting
    for its result (its result promise has no reaction but the call's own).
    When its coordinator succeeds with a usable response (the object exists
    and has headers) and the policy's time-to-live is zero, then once the
    microtasks have run the store has no entry for the key, the response
    object carries the policy's sanitised headers with [im2-cache:
    no-cache] (reading [im2-cache] from it gives [no-cache], any other
    header what the policy's headers hold, status and body are unchanged),
    and the call's promise is fulfilled with that response. *)
Theorem zero_ttl_not_stored (s : State) (url : string)
    (outer result derived resultPromise : PromiseRef)
    (r : ResRef) (x : Response) (h : Headers) (pol : Policy) (cold : bool) :
  in_flight s url outer result derived resultPromise ->
  responses s !! r = Some x ->
  headers x = Some h ->
  timeToLive pol (clock s) = 0 ->
  let s' := quiesce (settle result (Fulfilled (VResult (Some r) pol cold)) s) in
  microtasks s' = [] /\
  storage s' !! url = None /\
  responses s' !! r =
    Some (with_headers
            (set_header "im2-cache" "no-cache" (responseHeaders pol (clock s))) x) /\
  (exists x', responses s' !! r = Some x' /\
              stamped "no-cache" (responseHeaders pol (clock s)) x x' /\
              ttl x' = ttl x) /\
  promises s' !! outer = Some (Settled (Fulfilled (VResponse r))).
Proof.
  intros [HG HD HR HO (hit & e & Hst & He & Htemp) Hq] Hr Hh Httl s'.
  open_state s. distinct. bounds.
  evaluate s' by exec.
  split; [reflexivity|]. split; [read|]. split; [read|].
  split; [|read].
  eexists. split; [read|]. split; [observe | reflexivity].
Qed.

(** A call for a key that has no entry is in flight once its synchronous
    part and the microtask it queues have run, with or without a cold
    storage. *)
Lemma getCached_in_flight (s : State) (url : string) (request : Request) (cb : Callback) :
  url <> "" ->
  microtasks s = [] ->
  storage s !! url = None ->
  exists result derived resultPromise,
    in_flight (quiesce (getCached url (Some request) (Some cb) s).2) url
      (getCached url (Some request) (Some cb) s).1 result derived resultPromise.
Proof.
  intros Hurl Hq Hst. open_state s.
  destruct (_coldStorage cfg) eqn:Hcold.
  - exists (length ps + 1)%nat, (length ps + 4)%nat, (length ps + 5)%nat.
    exec. split; exec; try reflexivity.
    eexists _, _. exec. split; [reflexivity | exec; split; reflexivity].
  - exists (length ps + 1)%nat, (length ps + 3)%nat, (length ps + 4)%nat.
    exec. split; exec; try reflexivity.
    eexists _, _. exec. split; [reflexivity | exec; split; reflexivity].
Qed.


(** ** Cache hits *)

(** C3: when the store holds a live ready entry (not the busy marker, with
    a policy) whose policy reports that it satisfies the request without
    revalidation, [getCached] fulfils the call with the stored response
    object, invokes no fetch callback, and the object's headers are the
    policy's sanitised response headers with [im2-cache] set to [hit]:
    reading [im2-cache] from the served response gives [hit], reading any
    other header gives what the policy's headers hold, and status and body
    are unchanged. *)
Theorem hit_served_without_fetch (s : State) (url : string) (request : Request)
    (cb : Callback) (h : Hit) (e : Entry) (p : Policy) (r : ResRef) (x : Response) :
  url <> "" ->
  microtasks s = [] ->
  storage s !! url = Some h ->
  isStale s h = false ->
  entries s !! hit_value h = Some e ->
  temp e = false ->
  policy e = Some p ->
  satisfiesWithoutRevalidation p (clock s) request = true ->
  promises s !! promise e = Some (Settled (Fulfilled (VResponse r))) ->
  responses s !! r = Some x ->
  let outer := (getCached url (Some request) (Some cb) s).1 in
  let s' := quiesce (getCached url (Some request) (Some cb) s).2 in
  microtasks s' = [] /\
  fetchLog s' = fetchLog s /\
  promises s' !! outer = Some (Settled (Fulfilled (VResponse r))) /\
  exists x', responses s' !! r = Some x' /\
             headers x' = Some (set_header "im2-cache" "hit" (responseHeaders p (clock s))) /\
             stamped "hit" (responseHeaders p (clock s)) x x'.
Proof.
  intros Hurl Hq Hst Hlive He Htemp Hpol Hsat Hp Hr.
  open_state s. destruct h as [c t0 age]. cbn [hit_value hit_now hit_maxAge isStale config clock] in *.
  bounds.
  exec; repeat (case_cold; exec);
    (repeat split; try read); eexists; (split; [read|]);
    (split; [reflexivity | apply stamped_with_ttl]).
Qed.

(** C10: a cache hit changes the stored response object in place.  Under
    the conditions of a hit, the call is fulfilled with the very object the
    entry's promise holds; no response object is created; the object's
    [headers] field has been replaced by the policy's sanitised headers
    plus [im2-cache: hit], and its [ttl] field set to the policy's current
    time-to-live: reading the object back gives [ttl] equal to that
    time-to-live and [im2-cache] equal to [hit], every other header as the
    policy's headers hold it, and status and body as before.  Every promise that was fulfilled with that object before
    the call, such as the one an earlier caller awaited, still refers to
    it, and so shows the new fields. *)
Theorem hit_mutates_shared_response (s : State) (url : string) (request : Request)
    (cb : Callback) (h : Hit) (e : Entry) (p : Policy) (r : ResRef) (x : Response) :
  url <> "" ->
  microtasks s = [] ->
  storage s !! url = Some h ->
  isStale s h = false ->
  entries s !! hit_value h = Some e ->
  temp e = false ->
  policy e = Some p ->
  satisfiesWithoutRevalidation p (clock s) request = true ->
  promises s !! promise e = Some (Settled (Fulfilled (VResponse r))) ->
  responses s !! r = Some x ->
  let outer := (getCached url (Some request) (Some cb) s).1 in
  let s' := quiesce (getCached url (Some request) (Some cb) s).2 in
  promises s' !! outer = Some (Settled (Fulfilled (VResponse r))) /\
  length (responses s') = length (responses s) /\
  responses s' !! r =
    Some (with_ttl (timeToLive p (clock s))
            (with_headers
               (set_header "im2-cache" "hit" (responseHeaders p (clock s))) x)) /\
  (exists x', responses s' !! r = Some x' /\
              stamped "hit" (responseHeaders p (clock s)) x x' /\
              ttl x' = Some (timeToLive p (clock s))) /\
  forall q : PromiseRef,
    promises s !! q = Some (Settled (Fulfilled (VResponse r))) ->
    promises s' !! q = Some (Settled (Fulfilled (VResponse r))).
Proof.
  intros Hurl Hq Hst Hlive He Htemp Hpol Hsat Hp Hr.
  open_state s. destruct h as [c t0 age].
  cbn [hit_value hit_now hit_maxAge isStale config clock] in *.
  bounds.
  exec; repeat (case_cold; exec);
    (split; [read|]); (split; [in_range|]); (split; [read|]);
    (split; [eexists; split; [read | apply stamped_with_ttl]|]);
    intros q' Hq'; exec; read.
Qed.

(** ** Failures *)


(** ** The coordinator *)

(** C8: when [_getResult] is given no usable entry (none at all, or one
    without a policy, or an error entry) and the cold storage has no copy
    (none is configured, or its read yields nothing or fails), the
    coordinator invokes the fetch callback once, with an empty header map;
    and if that fetch answers with a response of status 304, the
    coordinator's promise is rejected with the "Unexpected revalidation"
    error. *)
Theorem unconditional_fetch_rejects_304 (s : State) (url : string) (request : Request)
    (cached : option EntryRef) (cb : Callback) (miss : Settlement) :
  microtasks s = [] ->
  match cached with
  | Some c => exists e, entries s !! c = Some e /\ (policy e = None \/ isError e = true)
  | None => True
  end ->
  is_miss miss ->
  let started := _getResult url request cached cb s in
  let s1 := cold_answer miss started.2 in
  exists f,
    fetchLog s1 = fetchLog s ++ [{| fc_callback := cb; fc_headers := []; fc_promise := f |}] /\
    forall x : Response,
      status x = 304 ->
      let s2 := quiesce (external f (Resolves (Some x)) s1) in
      microtasks s2 = [] /\
      fetchLog s2 = fetchLog s1 /\
      promises s2 !! started.1 = Some (Settled (Rejected UnexpectedRevalidation)).
Proof.
  intros Hq Hcached Hmiss started s1.
  open_state s.
  assert (Hnone : forall cfg' st' rs' ps' q' now' rnd' fl' cl',
             revalidation_target
               {| config := cfg'; storage := st'; entries := es; responses := rs';
                  promises := ps'; microtasks := q'; clock := now'; randoms := rnd';
                  fetchLog := fl'; coldLog := cl' |} cached = None).
  { intros. destruct cached as [c|]; [|reflexivity].
    destruct Hcached as (e & He & [Hp | Herr]); cbn; rewrite He.
    - rewrite Hp. destruct (isError e); reflexivity.
    - rewrite Herr. reflexivity. }
  assert (Hend : forall (s1' : State) f,
             (forall x : Response,
                status x = 304 ->
                let s2 := quiesce (external f (Resolves (Some x)) s1') in
                microtasks s2 = [] /\ fetchLog s2 = fetchLog s1' /\
                promises s2 !! length ps =
                  Some (Settled (Rejected UnexpectedRevalidation))) ->
             fetchLog s1' = fl ++ [{| fc_callback := cb; fc_headers := [];
                                      fc_promise := f |}] ->
             exists f0,
               fetchLog s1' = fl ++ [{| fc_callback := cb; fc_headers := [];
                                        fc_promise := f0 |}] /\
               forall x : Response,
                 status x = 304 ->
                 let s2 := quiesce (external f0 (Resolves (Some x)) s1') in
                 microtasks s2 = [] /\ fetchLog s2 = fetchLog s1' /\
                 promises s2 !! length ps =
                   Some (Settled (Rejected UnexpectedRevalidation))).
  { intros s1' f H1 H2. exists f. split; assumption. }
  destruct (_coldStorage cfg) eqn:Hcold.
  - destruct miss as [[x|]|c]; [contradiction| |].
    + evaluate started by exec. cbn [fst snd] in s1 |- *.
      evaluate s1 by (repeat first [exec1 | rewrite Hnone]).
      eapply Hend; [|reflexivity].
      intros x Hx s2. evaluate s2 by exec. repeat split; read.
    + evaluate started by exec. cbn [fst snd] in s1 |- *.
      evaluate s1 by (repeat first [exec1 | rewrite Hnone]).
      eapply Hend; [|reflexivity].
      intros x Hx s2. evaluate s2 by exec. repeat split; read.
  - evaluate started by (repeat first [exec1 | rewrite Hnone]).
    cbn [fst snd] in s1 |- *.
    evaluate s1 by exec.
    eapply Hend; [|reflexivity].
    intros x Hx s2. evaluate s2 by exec. repeat split; read.
Qed.

(** The exchange with the origin, once the revalidation request is out. *)
Ltac exchange p now request :=
  eexists; split; [exec; reflexivity|];
  let answer := fresh "answer" in
  intros answer; cbn [clock promises];
  let pol := fresh "pol" in
  let modified := fresh "modified" in
  let Hverdict := fresh "Hverdict" in
  destruct (revalidatedPolicy p now (revalidationHeaders p now request) answer)
    as [pol modified] eqn:Hverdict;
  let s2 := fresh "s2" in
  set (s2 := quiesce _);
  cbn [fst snd]; split;
  [ let v := fresh "v" in
    let Hv := fresh "Hv" in
    intros -> v Hv; bounds;
    destruct answer; evaluate s2 by exec; repeat split; read
  | let x := fresh "x" in
    let Hx := fresh "Hx" in
    intros -> x -> Hx;
    evaluate s2 by exec;
    eexists; split; [exec; reflexivity|];
    let answer' := fresh "answer'" in
    intros answer';
    let s3 := fresh "s3" in
    set (s3 := quiesce _);
    destruct answer'; evaluate s3 by exec; repeat split; read ].

(** C4, as amended: let [_getResult] be given a ready entry (it has a
    policy and is no error entry), and let the cold storage have no copy
    (none is configured, or its read yields nothing or fails).  Then the
    coordinator invokes the fetch callback once, with the policy's
    revalidation headers.  When the answer arrives, the policy's verdict on
    it decides: if it is not modified, no further fetch is made and the
    coordinator yields what the entry's promise holds, the previously
    stored response; if it is modified and the answer itself has status
    304, the coordinator invokes the callback once more, with an empty
    header map, and yields the answer to that second fetch.  In both cases
    the result carries the updated policy.  When the cold storage does
    have a copy, the coordinator invokes no fetch callback at all: it yields
    that copy, with a policy computed anew from the request and the copy,
    and marks the result as coming from the cold storage. *)
Theorem revalidation_protocol (s : State) (url : string) (request : Request)
    (c : EntryRef) (e : Entry) (p : Policy) (cb : Callback) :
  microtasks s = [] ->
  entries s !! c = Some e ->
  policy e = Some p ->
  isError e = false ->
  let started := _getResult url request (Some c) cb s in
  (_coldStorage (config s) = true ->
   forall x : Response,
     let s1 := cold_answer (Resolves (Some x)) started.2 in
     microtasks s1 = [] /\
     fetchLog s1 = fetchLog s /\
     promises s1 !! started.1 =
       Some (Settled (Fulfilled
               (VResult (Some (length (responses s))) (newPolicy (clock s) request x)
                  true)))) /\
  forall miss : Settlement,
  is_miss miss ->
  let s1 := cold_answer miss started.2 in
  let hdrs := revalidationHeaders p (clock s) request in
  exists f,
    fetchLog s1 = fetchLog s ++ [{| fc_callback := cb; fc_headers := hdrs; fc_promise := f |}] /\
    forall answer : option Response,
      let s2 := quiesce (external f (Resolves answer) s1) in
      let verdict := revalidatedPolicy p (clock s) hdrs answer in
      (verdict.2 = false ->
       forall v : Value,
         promises s !! promise e = Some (Settled (Fulfilled v)) ->
         microtasks s2 = [] /\
         fetchLog s2 = fetchLog s1 /\
         promises s2 !! started.1 =
           Some (Settled (Fulfilled (VResult (res_of v) verdict.1 false)))) /\
      (verdict.2 = true ->
       forall x : Response,
         answer = Some x ->
         status x = 304 ->
         exists f',
           fetchLog s2 = fetchLog s1 ++ [{| fc_callback := cb; fc_headers := [];
                                            fc_promise := f' |}] /\
           forall answer' : option Response,
             let s3 := quiesce (external f' (Resolves answer') s2) in
             microtasks s3 = [] /\
             fetchLog s3 = fetchLog s2 /\
             promises s3 !! started.1 =
               Some (Settled (Fulfilled
                       (VResult (option_map (fun _ => length (responses s2)) answer')
                          verdict.1 false)))).
Proof.
  intros Hq He Hp Herr started.
  split.
  { intros Hcold x s1. open_state s. cbn [config] in Hcold.
    evaluate started by exec. cbn [fst snd] in s1 |- *.
    evaluate s1 by exec. repeat split; read. }
  intros miss Hmiss s1 hdrs.
  open_state s. bounds.
  assert (Htarget : forall cfg' st' rs' ps' q' now' rnd' fl' cl',
             revalidation_target
               {| config := cfg'; storage := st'; entries := es; responses := rs';
                  promises := ps'; microtasks := q'; clock := now'; randoms := rnd';
                  fetchLog := fl'; coldLog := cl' |} (Some c) = Some (c, p)).
  { intros. cbn. rewrite He, Herr, Hp. reflexivity. }
  destruct (_coldStorage cfg) eqn:Hcold.
  - destruct miss as [[x|]|code]; [contradiction| |].
    + evaluate started by exec. cbn [fst snd] in s1 |- *.
      evaluate s1 by (repeat first [exec1 | rewrite Htarget]).
      subst hdrs. exchange p now request.
    + evaluate started by exec. cbn [fst snd] in s1 |- *.
      evaluate s1 by (repeat first [exec1 | rewrite Htarget]).
      subst hdrs. exchange p now request.
  - evaluate started by (repeat first [exec1 | rewrite Htarget]).
    cbn [fst snd] in s1 |- *.
    evaluate s1 by exec.
    subst hdrs. exchange p now request.
Qed.

(** ** The cold-storage flag *)

Lemma calm_except_impl (X Y : Prop) (s s' : State) :
  (X -> Y) -> calm_except X s s' -> calm_except Y s s'.
Proof.
  intros HXY (F & N & L). split; [exact F|]. split; [|exact L].
  intros c H0 H1. apply HXY. exact (N c H0 H1).
Qed.

Lemma calm_except_trans (X : Prop) (s1 s2 s3 : State) :
  calm_except X s1 s2 -> calm_except X s2 s3 -> calm_except X s1 s3.
Proof.
  intros (F1 & N1 & l1 & E1 & R1) (F2 & N2 & l2 & E2 & R2).
  split; [auto|]. split.
  - intros c H0 H3.
    destruct (flag s2 c) as [[|]|] eqn:H2.
    + exact (N1 c H0 H2).
    + rewrite (F2 c H2) in H3. discriminate.
    + exact (N2 c H2 H3).
  - exists (l1 ++ l2). split.
    + rewrite E2, E1. symmetry. apply app_assoc.
    + apply Forall_app. split; assumption.
Qed.

Lemma calm_refl (s : State) : calm s s.
Proof.
  split; [auto|]. split; [intros c H0 H1; congruence|].
  exists []. split; [symmetry; apply app_nil_r | constructor].
Qed.

Lemma calm_trans (s1 s2 s3 : State) : calm s1 s2 -> calm s2 s3 -> calm s1 s3.
Proof. apply calm_except_trans. Qed.

Lemma same_heap_calm (s s' : State) : same_heap s s' -> calm s s'.
Proof.
  intros [E L]. split; [|split].
  - intros c. unfold flag. rewrite E. auto.
  - intros c. unfold flag. rewrite E. congruence.
  - exists []. rewrite L. split; [symmetry; apply app_nil_r | constructor].
Qed.

Lemma same_heap_refl (s : State) : same_heap s s.
Proof. split; reflexivity. Qed.

Lemma same_heap_trans (s1 s2 s3 : State) :
  same_heap s1 s2 -> same_heap s2 s3 -> same_heap s1 s3.
Proof. intros [E1 L1] [E2 L2]. split; congruence. Qed.

Ltac frame :=
  split; cbn;
  repeat (case_match; cbn); reflexivity.

Lemma same_enqueue j s : same_heap s (enqueue j s).
Proof. destruct s. frame. Qed.

Lemma same_resolve target source s : same_heap s (resolve_with_promise target source s).
Proof. destruct s. frame. Qed.

Lemma same_subscribe p k s : same_heap s (subscribe p k s).
Proof. destruct s. frame. Qed.

Lemma same_settle p o s : same_heap s (settle p o s).
Proof. destruct s. frame. Qed.

Lemma same_then p k s : same_heap s (then_ p k s).2.
Proof. destruct s. frame. Qed.

Lemma same_dispose url c s : same_heap s (dispose url c s).
Proof. destruct s. frame. Qed.

Lemma same_storage_get url s : same_heap s (storage_get url s).2.
Proof. destruct s. frame. Qed.

Lemma same_storage_set url c age s : same_heap s (storage_set url c age s).
Proof. destruct s. frame. Qed.

Lemma same_storage_del url s : same_heap s (storage_del url s).
Proof. destruct s. frame. Qed.

Lemma same_update_response r f s : same_heap s (update_response r f s).
Proof. destruct s. frame. Qed.

Lemma same_getResult_fetch request cached cb result s :
  same_heap s (_getResult_fetch request cached cb result s).
Proof. destruct s. frame. Qed.

Lemma same_external p o s : same_heap s (external p o s).
Proof. destruct s. destruct o as [[x|]|code]; frame. Qed.

(** A new entry object: every flag that was there is as before, and the
    new object's flag is what the object literal says. *)
Lemma new_entry_flags e s :
  calm_except (inColdStoarge e = true) s (new_entry e s).2.
Proof.
  destruct s as [cfg st es rs ps q now rnd fl cl]. split; [|split]; cbn.
  - intros c. unfold flag; cbn. destruct (es !! c) as [x|] eqn:E; [|discriminate].
    rewrite (lookup_app_l_Some _ _ _ _ E). auto.
  - intros c. unfold flag; cbn. intros Hnone Hon.
    destruct (es !! c) as [x|] eqn:E; [discriminate|].
    apply lookup_ge_None in E.
    destruct (decide (c = length es)) as [->|Hne].
    + rewrite lookup_app_len in Hon. cbn in Hon. congruence.
    + rewrite lookup_app_r in Hon by lia.
      destruct (c - length es)%nat as [|n] eqn:En; [lia|]. discriminate.
  - exists []. split; [symmetry; apply app_nil_r | constructor].
Qed.

Lemma calm_new_entry e s : inColdStoarge e = false -> calm s (new_entry e s).2.
Proof.
  intros Hoff. eapply calm_except_impl; [|apply new_entry_flags]. congruence.
Qed.

Lemma calm_cold_get url s : calm s (cold_get url s).2.
Proof.
  destruct s. split; [|split]; cbn; [auto | intros c H0 H1; unfold flag in *; cbn in *; congruence |].
  eexists [_]. split; [reflexivity|]. repeat constructor.
Qed.

(** Updating an entry object by a function that does not set the flag. *)
Lemma calm_update_entry c f s :
  (forall e, inColdStoarge (f e) = true -> inColdStoarge e = true) ->
  calm s (update_entry c f s).
Proof.
  intros Hf. destruct s as [cfg st es rs ps q now rnd fl cl]. split; [|split]; cbn.
  - intros c'. unfold flag; cbn.
    destruct (es !! c) as [e|] eqn:E; cbn; [|auto].
    destruct (decide (c = c')) as [<-|Hne].
    + rewrite E. rewrite list_lookup_insert_eq by (eapply lookup_lt_Some; eassumption).
      cbn. intros [= Hflag]. f_equal.
      destruct (inColdStoarge (f e)) eqn:Hfe; [|reflexivity].
      apply Hf in Hfe. congruence.
    + rewrite list_lookup_insert_ne by assumption. auto.
  - intros c'. unfold flag; cbn.
    destruct (es !! c) as [e|] eqn:E; cbn; [|congruence].
    destruct (decide (c = c')) as [<-|Hne].
    + rewrite E. discriminate.
    + rewrite list_lookup_insert_ne by assumption. congruence.
  - destruct (es !! c); cbn;
      (exists []; split; [symmetry; apply app_nil_r | constructor]).
Qed.

Ltac calm_step :=
  first
    [ apply calm_refl
    | apply same_heap_calm;
      first [ apply same_enqueue | apply same_resolve
            | apply same_subscribe | apply same_settle | apply same_then
            | apply same_dispose | apply same_storage_get | apply same_storage_set
            | apply same_storage_del | apply same_update_response
            | apply same_getResult_fetch | apply same_external ]
    | apply calm_new_entry; reflexivity
    | apply calm_cold_get ].

Lemma calm_getResult url request cached cb s :
  calm s (_getResult url request cached cb s).2.
Proof.
  unfold _getResult.
  assert (H0 : same_heap s (new_promise s).2) by (destruct s; split; reflexivity).
  destruct (new_promise s) as [result s1]. cbn [snd] in H0.
  eapply calm_trans; [apply same_heap_calm; exact H0|].
  destruct (_coldStorage (config s1)).
  - pose proof (calm_cold_get url s1) as H1.
    destruct (cold_get url s1) as [f s2]. cbn [snd] in H1.
    pose proof (same_then f ColdGetCatch s2) as H2.
    destruct (then_ f ColdGetCatch s2) as [d s3]. cbn [snd] in H2 |- *.
    eapply calm_trans; [exact H1|].
    eapply calm_trans; [apply same_heap_calm; exact H2|].
    calm_step.
  - cbn [snd]. calm_step.
Qed.

Lemma calm_getCached_miss url request cached cb outer s :
  calm s (getCached_miss url request cached cb outer s).
Proof.
  unfold getCached_miss.
  pose proof (calm_getResult url request cached cb s) as H0.
  destruct (_getResult url request cached cb s) as [result s1]. cbn [snd] in H0.
  eapply calm_trans; [exact H0|].
  pose proof (same_then result (ThenStore url (length (promises s1) + 1)) s1) as H1.
  set (s2 := (then_ result _ s1).2) in *.
  pose proof (same_then (length (promises s1))
                (fun _ => CatchError url (length (promises s1) + 1)%nat) s2) as H2.
  set (s3 := (then_ _ _ s2).2) in *.
  match goal with
  | |- calm _ (let '(t, s4) := new_entry ?e s3 in _) =>
      pose proof (calm_new_entry e s3 eq_refl) as H3;
      destruct (new_entry e s3) as [t s4]
  end.
  cbn [snd] in H3.
  eapply calm_trans; [apply same_heap_calm; exact H1|].
  eapply calm_trans; [apply same_heap_calm; exact H2|].
  eapply calm_trans; [exact H3|].
  eapply calm_trans; [apply same_heap_calm; apply same_storage_set|].
  calm_step.
Qed.

Lemma calm_getCached url request cb s : calm s (getCached url request cb s).2.
Proof.
  unfold getCached.
  assert (H0 : same_heap s (new_promise s).2) by (destruct s; split; reflexivity).
  destruct (new_promise s) as [outer s1]. cbn [snd] in H0.
  eapply calm_trans; [apply same_heap_calm; exact H0|].
  destruct request as [request|]; [destruct cb as [cb|]|];
    try (cbn [snd]; calm_step).
  destruct (bool_decide (url = "")); [cbn [snd]; calm_step|].
  pose proof (same_storage_get url s1) as H1.
  destruct (storage_get url s1) as [cached s2]. cbn [snd] in H1.
  eapply calm_trans; [apply same_heap_calm; exact H1|].
  destruct cached as [c|]; [|cbn [snd]; apply calm_getCached_miss].
  destruct (entries s2 !! c) as [e|]; [|cbn [snd]; apply calm_refl].
  destruct (temp e); [cbn [snd]; calm_step|].
  destruct (match policy e with Some p => _ | None => true end);
    cbn [snd]; [calm_step | apply calm_getCached_miss].
Qed.

Ltac lift := apply (calm_except_impl False); [intros []|]; fold calm.

(** The handler of lines 55-71 creates an entry object whose flag is on
    only for a result marked as read back from the cold storage. *)
Lemma then_store_flags url resultPromise derived res pol cold s :
  calm_except (cold = true) s (then_store url resultPromise derived res pol cold s).
Proof.
  unfold then_store.
  destruct (match res with Some r => _ | None => None end) as [[r x]|].
  - set (s1 := update_response r _ s).
    assert (H1 : same_heap s s1) by apply same_update_response.
    eapply calm_except_trans; [lift; apply same_heap_calm; exact H1|].
    destruct (timeToLive pol (clock s) =? 0).
    + lift.
      eapply calm_trans; [apply same_heap_calm; apply same_storage_del|].
      eapply calm_trans; [apply same_heap_calm; apply same_update_response|].
      calm_step.
    + set (s2 := update_response r _ s1).
      assert (H2 : same_heap s1 s2) by apply same_update_response.
      eapply calm_except_trans; [lift; apply same_heap_calm; exact H2|].
      match goal with
      | |- calm_except _ _ (let '(c, s3) := new_entry ?e s2 in _) =>
          pose proof (new_entry_flags e s2) as H3;
          destruct (new_entry e s2) as [c s3]
      end.
      cbn [snd] in H3. eapply calm_except_trans; [exact H3|].
      assert (H4 : same_heap s3 (random s3).2)
        by (destruct s3; unfold random; cbn; case_match; split; reflexivity).
      destruct (random s3) as [jitter s4]. cbn [snd] in H4.
      lift.
      eapply calm_trans; [apply same_heap_calm; exact H4|].
      eapply calm_trans; [apply same_heap_calm; apply same_storage_set|].
      calm_step.
  - lift. eapply calm_trans; [apply same_heap_calm; apply same_storage_del|].
    calm_step.
Qed.

Lemma calm_catch_error url resultPromise err s :
  calm s (catch_error url resultPromise err s).
Proof.
  unfold catch_error.
  pose proof (calm_new_entry (error_entry resultPromise) s eq_refl) as H1.
  destruct (new_entry (error_entry resultPromise) s) as [c s1]. cbn [snd] in H1.
  eapply calm_trans; [exact H1|].
  eapply calm_trans; [apply same_heap_calm; apply same_storage_set|].
  calm_step.
Qed.

Lemma calm_revalidated request cached hdrs cb result v s :
  calm s (revalidated request cached hdrs cb result v s).
Proof.
  unfold revalidated.
  destruct (entries s !! cached) as [e|]; [|apply calm_refl].
  destruct (policy e) as [p|]; [|calm_step].
  destruct (revalidatedPolicy p (clock s) hdrs _) as [pol modified].
  set (s1 := update_entry cached (with_policy pol) s).
  assert (H1 : calm s s1) by (apply calm_update_entry; intros e0; exact id).
  eapply calm_trans; [exact H1|].
  destruct (negb modified); [calm_step|].
  destruct (r ← res_of v; responses s !! r) as [x|]; [|calm_step].
  destruct (status x =? 304); [|calm_step].
  assert (H2 : same_heap s1 (call_fetch cb [] s1).2)
    by (destruct s1; split; reflexivity).
  destruct (call_fetch cb [] s1) as [f s2]. cbn [snd] in H2.
  eapply calm_trans; [apply same_heap_calm; exact H2|]. calm_step.
Qed.

Lemma calm_fetched request result v s : calm s (fetched request result v s).
Proof.
  unfold fetched. destruct (_ ← res_of v; _) as [[r x]|]; [|calm_step].
  destruct (status x =? 304); calm_step.
Qed.

Lemma calm_cold_answered url request cached cb result v s :
  calm s (cold_answered url request cached cb result v s).
Proof.
  unfold cold_answered. destruct (_ ← res_of v; _) as [[r x]|]; calm_step.
Qed.

(** [_putInColdStorage] changes nothing, or demotes. *)
Lemma putInColdStorage_cases url v c s :
  same_heap s (_putInColdStorage url v c s) \/
  demotion s (_putInColdStorage url v c s) c.
Proof.
  destruct s as [cfg st es rs ps q now rnd fl cl].
  unfold _putInColdStorage. cbn [entries config clock].
  destruct (es !! c) as [e|] eqn:He; [|left; split; reflexivity].
  destruct (inColdStoarge e) eqn:Hflag; [left; split; reflexivity|].
  destruct (_coldStorage cfg) eqn:Hcold; [|left; split; reflexivity].
  cbn [negb andb].
  destruct (policy e) as [p|] eqn:Hp; [|left; split; reflexivity].
  destruct (3600 * 1000 <=? timeToLive p now) eqn:Httl; [|left; split; reflexivity].
  right. exists e, p, url, v, (length ps).
  match goal with
  | |- context [ coldLog ?X = _ ] =>
      assert (HX : entries X = <[c:=with_inColdStoarge true e]> es /\
                   coldLog X = cl ++ [ColdSet url v (timeToLive p now) (length ps)])
        by (cbn; rewrite He; cbn; repeat case_match; split; reflexivity)
  end.
  destruct HX as [HE HL].
  repeat split; try assumption.
  - apply Z.leb_le. exact Httl.
  - intros c' Hne. unfold flag. rewrite HE. cbn [entries].
    rewrite list_lookup_insert_ne by auto. auto.
  - intros c'. unfold flag. rewrite HE. cbn [entries].
    destruct (decide (c = c')) as [<-|Hne]; [rewrite He; discriminate|].
    rewrite list_lookup_insert_ne by auto. auto.
Qed.

Lemma demotion_then_same (s s1 s2 : State) (c : EntryRef) :
  demotion s s1 c -> same_heap s1 s2 -> demotion s s2 c.
Proof.
  intros (e & p & url & res & f & He & Hflag & Hcold & Hp & Httl & Hlog & Hother & Hnew) [E L].
  exists e, p, url, res, f. repeat split; try assumption.
  - rewrite L. exact Hlog.
  - intros c' Hne H. unfold flag. rewrite E. apply Hother; assumption.
  - intros c' H. unfold flag. rewrite E. apply Hnew; assumption.
Qed.

(** [dump] and [purge] only register handlers and empty the store. *)
Lemma same_foldl {A} (f : State -> A -> State) (l : list A) :
  (forall s x, same_heap s (f s x)) -> forall s, same_heap s (foldl f s l).
Proof.
  intros Hf. induction l as [|x l IH]; intros s; cbn.
  - apply same_heap_refl.
  - eapply same_heap_trans; [apply Hf | apply IH].
Qed.

Lemma same_dump_item acc kh : same_heap acc.2 (dump_item acc kh).2.
Proof.
  destruct acc as [arr s]. unfold dump_item. cbn [snd].
  destruct (entries s !! hit_value kh.2) as [e|]; [|apply same_heap_refl].
  destruct (negb (temp e) && truthy (policy e)); [|apply same_heap_refl].
  pose proof (same_then (promise e) (DumpEntry kh.1 (hit_value kh.2)) s) as H.
  destruct (then_ _ _ s) as [d s1]. exact H.
Qed.

Lemma same_promise_all arr s : same_heap s (promise_all arr s).2.
Proof.
  unfold promise_all.
  assert (H0 : same_heap s (new_promise s).2) by (destruct s; split; reflexivity).
  destruct (new_promise s) as [all s1]. cbn [snd] in H0.
  destruct arr as [|a arr]; cbn [snd].
  - eapply same_heap_trans; [exact H0 | apply same_settle].
  - eapply same_heap_trans; [exact H0|].
    apply same_foldl. intros s2 e. apply same_then.
Qed.

Lemma same_dump s : same_heap s (dump s).2.
Proof.
  unfold dump.
  assert (H : forall l acc, same_heap s acc.2 -> same_heap s (foldl dump_item acc l).2).
  { induction l as [|kh l IH]; intros acc Hacc; cbn; [exact Hacc|].
    apply IH. eapply same_heap_trans; [exact Hacc | apply same_dump_item]. }
  specialize (H (storage_live s) ([], s) (same_heap_refl s)).
  destruct (foldl dump_item ([], s) (storage_live s)) as [arr s1]. cbn [snd] in H.
  eapply same_heap_trans; [exact H | apply same_promise_all].
Qed.

Lemma same_purge s : same_heap s (purge s).
Proof.
  unfold purge, storage_reset.
  pose proof (same_foldl (fun s1 (kh : string * Hit) => dispose kh.1 (hit_value kh.2) s1)
                (map_to_list (storage s))
                (fun s1 kh => same_dispose kh.1 (hit_value kh.2) s1) s) as H.
  revert H.
  generalize (foldl (fun s1 (kh : string * Hit) => dispose kh.1 (hit_value kh.2) s1) s
                (map_to_list (storage s))).
  intros s1 H. eapply same_heap_trans; [exact H|].
  destruct s1. split; reflexivity.
Qed.

Lemma same_all_element all arr base derived o s :
  same_heap s (all_element all arr base derived o s).
Proof.
  unfold all_element. destruct o as [v|err].
  - destruct (forallb _ _).
    + eapply same_heap_trans; apply same_settle.
    + apply same_settle.
  - eapply same_heap_trans; apply same_settle.
Qed.

Lemma serve_hit_cases url cached outer v s :
  calm s (serve_hit url cached outer v s) \/
  demotion s (serve_hit url cached outer v s) cached.
Proof.
  unfold serve_hit.
  destruct (entries s !! cached) as [e|]; [|left; apply calm_refl].
  destruct (policy e) as [p|]; [|left; calm_step].
  assert (Hrest : forall s1,
             same_heap s1
               match v with
               | VResponse r =>
                   settle outer (Fulfilled v)
                     (update_response r
                        (fun x => with_ttl (timeToLive p (clock s))
                                    (with_headers
                                       (set_header "im2-cache" "hit"
                                          (responseHeaders p (clock s))) x)) s1)
               | _ => settle outer (Rejected TypeError) s1
               end).
  { intros s1. destruct v; try apply same_settle.
    eapply same_heap_trans; [apply same_update_response | apply same_settle]. }
  destruct (putInColdStorage_cases url v cached s) as [H | H].
  - left. apply same_heap_calm. eapply same_heap_trans; [exact H | apply Hrest].
  - right. eapply demotion_then_same; [exact H | apply Hrest].
Qed.

(** A reaction is calm or demotes one entry, unless it is the handler of
    lines 55-71 run on a result marked as read back from the cold storage:
    that one writes nothing and sets no flag, but may create an entry
    object whose flag is on. *)
Lemma run_reaction_cases k o s :
  calm s (run_reaction k o s) \/
  (exists c, demotion s (run_reaction k o s) c) \/
  ((exists url resultPromise derived res pol,
      k = ThenStore url resultPromise derived /\ o = Fulfilled (VResult res pol true)) /\
   calm_except True s (run_reaction k o s)).
Proof.
  destruct k, o as [v|err]; unfold run_reaction; cbv beta iota;
    try (left; calm_step; fail);
    lazymatch goal with
    | |- calm _ (let '(p, s1) := getCached ?u ?r ?c ?s in _) \/ _ =>
        left; pose proof (calm_getCached u r c s) as H;
        destruct (getCached u r c s) as [p s1]; cbn [snd] in H;
        eapply calm_trans; [exact H | calm_step]
    | |- calm _ (serve_hit ?u ?c ?o ?v ?s) \/ _ =>
        destruct (serve_hit_cases u c o v s) as [H | H];
        [left | right; left; eexists]; exact H
    | |- calm _ (catch_error _ _ _ _) \/ _ => left; apply calm_catch_error
    | |- calm _ (cold_answered _ _ _ _ _ _ _) \/ _ => left; apply calm_cold_answered
    | |- calm _ (revalidated _ _ _ _ _ _ _) \/ _ => left; apply calm_revalidated
    | |- calm _ (fetched _ _ _ _) \/ _ => left; apply calm_fetched
    | |- calm _ (all_element _ _ _ _ _ _) \/ _ =>
        left; apply same_heap_calm; apply same_all_element
    | |- calm _ (settle _ _ (update_entry ?c ?f ?s)) \/ _ =>
        left; apply (calm_trans _ (update_entry c f s));
        [apply calm_update_entry; intros e H; cbn in H; discriminate H | calm_step]
    | |- calm _ (settle _ _ (_putInColdStorage ?u ?v ?c ?s)) \/ _ =>
        destruct (putInColdStorage_cases u v c s) as [H | H];
        [ left; apply same_heap_calm;
          eapply same_heap_trans; [exact H | apply same_settle]
        | right; left; eexists; eapply demotion_then_same; [exact H | apply same_settle] ]
    | |- _ =>
        destruct v as [|r|res pol [|]|vs];
        [ left; calm_step
        | left; eapply calm_trans; [apply same_heap_calm; apply same_storage_del | calm_step]
        | right; right; split; [eauto 10|];
          eapply calm_except_impl; [|apply then_store_flags]; auto
        | left; eapply calm_except_impl; [|apply then_store_flags]; discriminate
        | left; eapply calm_trans; [apply same_heap_calm; apply same_storage_del | calm_step] ]
    end.
Qed.

(** Every transition of the machine is calm or demotes one entry, unless
    it is the microtask that stores a result read back from the cold
    storage. *)
Lemma step_cases (ev : Event) (s : State) :
  calm s (step ev s) \/
  (exists c, demotion s (step ev s) c) \/
  (ev = Microtask /\ recovering s /\ calm_except True s (step ev s)).
Proof.
  destruct ev as [url request cb | | | p o | dt | ]; unfold step.
  - left. apply calm_getCached.
  - left. apply same_heap_calm. apply same_dump.
  - left. apply same_heap_calm. apply same_purge.
  - left. apply same_heap_calm. apply same_external.
  - left. apply same_heap_calm. destruct s; split; reflexivity.
  - unfold microtask. destruct (microtasks s) as [|j q] eqn:Hq; [left; apply calm_refl|].
    set (s0 := set_microtasks (fun _ => q) s).
    assert (H0 : same_heap s s0) by (destruct s; split; reflexivity).
    assert (Hsame : forall c, flag s0 c = flag s c)
      by (intros c; unfold flag; destruct H0 as [-> _]; reflexivity).
    assert (Hcalm : forall X s', calm_except X s0 s' -> calm_except X s s').
    { intros X s'. apply calm_except_trans.
      apply (calm_except_impl False); [intros []|]. apply same_heap_calm. exact H0. }
    assert (Hdem : forall s' c, demotion s0 s' c -> demotion s s' c).
    { intros s' c (e & p & url & res & f & He & Hflag & Hcold & Hp & Httl & Hlog & Hother & Hnew).
      destruct H0 as [E L].
      exists e, p, url, res, f.
      assert (config s0 = config s /\ clock s0 = clock s) as [Ec Et]
        by (destruct s; split; reflexivity).
      rewrite <- E, <- L, <- Ec, <- Et. repeat split; assumption. }
    destruct j as [k o | target source]; unfold run_job.
    + destruct (run_reaction_cases k o s0) as [H | [[c H] | [Hjob H]]].
      * left. apply Hcalm. exact H.
      * right. left. exists c. auto.
      * right. right. split; [reflexivity|]. split; [|apply Hcalm; exact H].
        destruct Hjob as (url & rp & d & res & pol & -> & ->).
        exists url, rp, d, res, pol, q. exact Hq.
    + left. apply Hcalm. calm_step.
Qed.


(** ** Concurrent callers *)

(** A call that finds the busy marker of a fetch under way only subscribes
    to the marker's promise. *)
Lemma getCached_waits (s : State) (url : string) (request : Request) (cb : Callback)
    (h : Hit) (e : Entry) (ws : list Reaction) :
  url <> "" ->
  storage s !! url = Some h ->
  isStale s h = false ->
  entries s !! hit_value h = Some e ->
  temp e = true ->
  promises s !! promise e = Some (Pending ws) ->
  getCached url (Some request) (Some cb) s =
  (length (promises s),
   set_promises
     (fun ps => <[promise e := Pending (ws ++ [AwaitTemp url request cb (length ps)])]>
                  (ps ++ [Pending []])) s).
Proof.
  intros Hurl Hst Hlive He Htemp Hp.
  open_state s. destruct h as [c t0 age]. project. cbn [isStale config clock] in Hlive.
  project. bounds.
  exec. reflexivity.
Qed.

(** *** The invariant of a pending call *)

Section Pending.
Variables (url : string) (request : Request) (cb : Callback).
Variables (fl0 : list FetchCall) (t0 : Z).
Variables (outer result resultPromise : PromiseRef) (g : option PromiseRef).
Hypothesis Hurl : url <> "".

Local Abbreviation pending := (pending_call url request cb fl0 t0 outer result resultPromise g).
Local Abbreviation stage := (stage_holds url request cb fl0 outer result resultPromise g).

(** Another call for the key, while the marker is live, only waits. *)
Lemma pending_called (s : State) (ws : list Reaction) (request' : Request) (cb' : Callback) :
  pending s ws ->
  clock s - t0 <= _busyTimeout (config s) ->
  exists ws',
    pending (step (Call url (Some request') (Some cb')) s) ws' /\
    waiters_of ws' = waiters_of ws ++ [(request', cb')].
Proof.
  intros [Hbusy Htime (c & e & Hst & He & Htemp & Hrp) Hshared Houter Hapart
          (rt & st & Hrt & Hstage)] Hwin.
  subst resultPromise.
  unfold step.
  rewrite (getCached_waits s url request' cb' _ e ws Hurl Hst); try assumption.
  2: { destruct s. cbn in *.
       destruct (_busyTimeout config0 =? 0) eqn:E; [apply Z.eqb_eq in E; lia|].
       apply Z.ltb_ge. lia. }
  exists (ws ++ [AwaitTemp url request' cb' (length (promises s))]).
  split.
  2: { unfold waiters_of. rewrite omap_app. reflexivity. }
  destruct s as [cfg st0 es rs ps q now rnd fl cl]. cbn [snd set_promises] .
  cbn [config storage entries promises clock microtasks fetchLog] in *.
  pose proof (lookup_lt_Some _ _ _ Hshared) as Hlt.
  pose proof (lookup_lt_Some _ _ _ Houter) as Hlto.
  assert (Hkeep : forall i x, i <> promise e -> ps !! i = Some x ->
            (<[promise e := Pending (ws ++ [AwaitTemp url request' cb' (length ps)])]>
               (ps ++ [Pending []])) !! i = Some x).
  { intros i x Hne Hi. rewrite list_lookup_insert_ne by auto.
    apply lookup_app_l_Some. exact Hi. }
  split; cbn [config storage entries promises clock microtasks fetchLog];
    try assumption.
  - exists c, e. auto.
  - apply list_lookup_insert_eq. rewrite length_app. lia.
  - apply Hkeep; auto.
  - exists rt, st. split; [exact Hrt|].
    destruct st as [gp d | gp d o | gp d | f];
      cbn [stage_holds config storage entries promises clock microtasks fetchLog] in *.
    + destruct Hstage as (Hg & Hgp & Hd & N1 & N2 & N3 & N4 & Hq & Hfl).
      repeat split; try assumption; apply Hkeep; auto.
    + destruct Hstage as (Hg & Hgp & Ho & Hd & N3 & N4 & Hq & Hfl).
      assert (gp <> promise e) by (intros ->; congruence).
      repeat split; try assumption; apply Hkeep; auto.
    + destruct Hstage as (Hg & (o & Hgp) & Hq & Hfl).
      assert (gp <> promise e) by (intros ->; congruence).
      repeat split; try assumption. exists o. apply Hkeep; auto.
    + destruct Hstage as (Hgs & Hf & N1 & N2 & Hq & Hfl).
      repeat split; try assumption; [|apply Hkeep; auto].
      intros gp Hgp. destruct (Hgs gp Hgp) as [o Ho].
      assert (gp <> promise e) by (intros ->; congruence).
      exists o. apply Hkeep; auto.
Qed.

(** Time passes. *)
Lemma pending_elapsed (s : State) (ws : list Reaction) (dt : Z) :
  pending s ws -> 0 <= dt -> pending (step (Elapses dt) s) ws.
Proof.
  intros [Hbusy Htime Hmarker Hshared Houter Hapart (rt & st & Hrt & Hstage)] Hdt.
  destruct s as [cfg st0 es rs ps q now rnd fl cl].
  cbn [step elapse set_clock] .
  cbn [config storage entries promises clock microtasks fetchLog] in *.
  split; cbn [config storage entries promises clock microtasks fetchLog];
    try assumption; [lia|].
  exists rt, st. split; [exact Hrt|].
  destruct st; exact Hstage.
Qed.

(** The cold storage answers the call's read with a miss. *)
Lemma pending_missed (s : State) (ws : list Reaction) (p : PromiseRef) (o : Settlement) :
  pending s ws -> g = Some p -> is_miss o -> pending (step (Settles p o) s) ws.
Proof.
  intros [Hbusy Htime Hmarker Hshared Houter Hapart (rt & st & Hrt & Hstage)] Hg Hmiss.
  assert (Hsettled : forall o', promises s !! p = Some (Settled o') ->
                                step (Settles p o) s = s).
  { intros o' Hp. destruct s as [cfg st0 es rs ps q now rnd fl cl].
    cbn in Hp. destruct o as [[x|]|code]; [contradiction| |];
      cbn; rewrite Hp; reflexivity. }
  assert (Hsame : pending s ws).
  { split; try assumption. exists rt, st. auto. }
  destruct st as [gp d | gp d o' | gp d | f]; cbn [stage_holds] in Hstage.
  - destruct Hstage as (Hg' & Hgp & Hd & N1 & N2 & N3 & N4 & Hq & Hfl).
    assert (gp = p) by congruence. subst gp.
    assert (d <> p) by (intros ->; congruence).
    destruct s as [cfg st0 es rs ps q now rnd fl cl].
    cbn [config storage entries promises clock microtasks fetchLog] in *.
    pose proof (lookup_lt_Some _ _ _ Hgp) as Hlt.
    assert (Hstep : exists o',
               (o' = Fulfilled VUndefined \/ exists err, o' = Rejected err) /\
               step (Settles p o)
                 {| config := cfg; storage := st0; entries := es; responses := rs;
                    promises := ps; microtasks := q; clock := now; randoms := rnd;
                    fetchLog := fl; coldLog := cl |} =
               {| config := cfg; storage := st0; entries := es; responses := rs;
                  promises := <[p := Settled o']> ps;
                  microtasks := q ++ [ReactionJob (ColdGetCatch d) o'];
                  clock := now; randoms := rnd; fetchLog := fl; coldLog := cl |}).
    { destruct o as [[x|]|code]; [contradiction| |]; eexists; (split; [|cbn; rewrite Hgp; reflexivity]); eauto. }
    destruct Hstep as (o' & Ho' & ->).
    split; cbn [config storage entries promises clock microtasks fetchLog];
      try assumption.
    + rewrite list_lookup_insert_ne by auto. exact Hshared.
    + rewrite list_lookup_insert_ne by auto. exact Houter.
    + exists rt, (ReadSettled p d o'). split; [exact Hrt|].
      cbn [stage_holds config storage entries promises clock microtasks fetchLog].
      repeat split; try assumption.
      * apply list_lookup_insert_eq. exact Hlt.
      * rewrite list_lookup_insert_ne by auto. exact Hd.
      * rewrite Hq. reflexivity.
  - destruct Hstage as (Hg' & Hgp & _).
    assert (gp = p) by congruence. subst gp.
    rewrite (Hsettled _ Hgp). exact Hsame.
  - destruct Hstage as (Hg' & (o' & Hgp) & _).
    assert (gp = p) by congruence. subst gp.
    rewrite (Hsettled _ Hgp). exact Hsame.
  - destruct Hstage as (Hgs & _).
    destruct (Hgs p Hg) as [o' Hgp].
    rewrite (Hsettled _ Hgp). exact Hsame.
Qed.

(** A microtask runs: the job that makes the call's promise follow the
    shared promise, or the next step of the coordinator. *)
Lemma pending_microtask (s : State) (ws : list Reaction) :
  pending s ws ->
  exists ws', pending (step Microtask s) ws' /\ waiters_of ws' = waiters_of ws.
Proof.
  intros [Hbusy Htime Hmarker Hshared Houter Hapart (rt & st & Hrt & Hstage)].
  destruct s as [cfg st0 es rs ps q now rnd fl cl].
  cbn [config storage entries promises clock microtasks fetchLog] in *.
  pose proof (lookup_lt_Some _ _ _ Hshared) as Hlt.
  pose proof (lookup_lt_Some _ _ _ Houter) as Hlto.
  destruct Hrt as [-> | ->].
  - (* the coordinator's next step *)
    destruct st as [gp d | gp d o | gp d | f];
      cbn [stage_holds config storage entries promises clock microtasks fetchLog app] in Hstage.
    + destruct Hstage as (Hg & Hgp & Hd & N1 & N2 & N3 & N4 & -> & Hfl).
      exists ws. split; [|reflexivity]. cbn [step microtask microtasks].
      split; cbn [config storage entries promises clock microtasks fetchLog];
        try assumption.
      exists [], (Reading gp d). split; [left; reflexivity|].
      cbn [stage_holds config storage entries promises clock microtasks fetchLog].
      repeat split; assumption.
    + destruct Hstage as (Hg & Hgp & Ho & Hd & N3 & N4 & -> & Hfl).
      pose proof (lookup_lt_Some _ _ _ Hd) as Hltd.
      assert (gp <> d) by (intros ->; congruence).
      exists ws. split; [|reflexivity].
      assert (Hstep : step Microtask
                 {| config := cfg; storage := st0; entries := es; responses := rs;
                    promises := ps;
                    microtasks := [ReactionJob (ColdGetCatch d) o];
                    clock := now; randoms := rnd; fetchLog := fl; coldLog := cl |} =
               {| config := cfg; storage := st0; entries := es; responses := rs;
                  promises := <[d := Settled (Fulfilled VUndefined)]> ps;
                  microtasks :=
                    [ReactionJob (AwaitColdGet url request None cb result)
                       (Fulfilled VUndefined)];
                  clock := now; randoms := rnd; fetchLog := fl; coldLog := cl |}).
      { destruct Ho as [-> | [err ->]]; cbn; rewrite Hd; reflexivity. }
      rewrite Hstep.
      split; cbn [config storage entries promises clock microtasks fetchLog];
        try assumption.
      * rewrite list_lookup_insert_ne by auto. exact Hshared.
      * rewrite list_lookup_insert_ne by auto. exact Houter.
      * exists [], (ReadCaught gp d). split; [left; reflexivity|].
        cbn [stage_holds config storage entries promises clock microtasks fetchLog app].
        repeat split; try assumption.
        exists o. rewrite list_lookup_insert_ne by auto. exact Hgp.
    + destruct Hstage as (Hg & (o & Hgp) & -> & Hfl).
      pose proof (lookup_lt_Some _ _ _ Hgp) as Hltg.
      exists ws. split; [|reflexivity].
      assert (Hstep : step Microtask
                 {| config := cfg; storage := st0; entries := es; responses := rs;
                    promises := ps;
                    microtasks :=
                      [ReactionJob (AwaitColdGet url request None cb result)
                         (Fulfilled VUndefined)];
                    clock := now; randoms := rnd; fetchLog := fl; coldLog := cl |} =
               {| config := cfg; storage := st0; entries := es; responses := rs;
                  promises := ps ++ [Pending [AwaitFetch request result]];
                  microtasks := [];
                  clock := now; randoms := rnd;
                  fetchLog := fl ++ [{| fc_callback := cb; fc_headers := [];
                                        fc_promise := length ps |}];
                  coldLog := cl |}).
      { exec. reflexivity. }
      rewrite Hstep.
      split; cbn [config storage entries promises clock microtasks fetchLog];
        try assumption.
      * apply lookup_app_l_Some. exact Hshared.
      * apply lookup_app_l_Some. exact Houter.
      * exists [], (Fetching (length ps)). split; [left; reflexivity|].
        cbn [stage_holds config storage entries promises clock microtasks fetchLog].
        split; [|split; [|split; [|split; [|split]]]].
        -- intros gp' Hgp'. assert (gp' = gp) by congruence. subst gp'.
           exists o. apply lookup_app_l_Some. exact Hgp.
        -- rewrite lookup_app_len. reflexivity.
        -- lia.
        -- lia.
        -- reflexivity.
        -- rewrite Hfl. reflexivity.
    + destruct Hstage as (Hgs & Hf & N1 & N2 & -> & Hfl).
      exists ws. split; [|reflexivity]. cbn [step microtask microtasks].
      split; cbn [config storage entries promises clock microtasks fetchLog];
        try assumption.
      exists [], (Fetching f). split; [left; reflexivity|].
      cbn [stage_holds config storage entries promises clock microtasks fetchLog].
      repeat split; assumption.
  - (* the call's promise starts to follow the shared promise *)
    exists (ws ++ [Adopt outer]). split.
    2: { unfold waiters_of. rewrite omap_app. cbn. apply app_nil_r. }
    assert (Hq : exists q', q = ResolveThenableJob outer resultPromise :: q' /\
                   stage [] st
                     {| config := cfg; storage := st0; entries := es; responses := rs;
                        promises := ps; microtasks := q'; clock := now; randoms := rnd;
                        fetchLog := fl; coldLog := cl |}).
    { destruct st as [gp d | gp d o | gp d | f];
        cbn [stage_holds config storage entries promises clock microtasks fetchLog app]
          in Hstage |- *.
      - destruct Hstage as (Hg & Hgp & Hd & N1 & N2 & N3 & N4 & -> & Hfl).
        eexists. split; [reflexivity|]. repeat split; assumption.
      - destruct Hstage as (Hg & Hgp & Ho & Hd & N3 & N4 & -> & Hfl).
        eexists. split; [reflexivity|]. repeat split; assumption.
      - destruct Hstage as (Hg & Hgp & -> & Hfl).
        eexists. split; [reflexivity|]. repeat split; assumption.
      - destruct Hstage as (Hgs & Hf & N1 & N2 & -> & Hfl).
        eexists. split; [reflexivity|]. repeat split; assumption. }
    destruct Hq as (q' & -> & Hstage').
    assert (Hstep : step Microtask
               {| config := cfg; storage := st0; entries := es; responses := rs;
                  promises := ps;
                  microtasks := ResolveThenableJob outer resultPromise :: q';
                  clock := now; randoms := rnd; fetchLog := fl; coldLog := cl |} =
             {| config := cfg; storage := st0; entries := es; responses := rs;
                promises := <[resultPromise := Pending (ws ++ [Adopt outer])]> ps;
                microtasks := q';
                clock := now; randoms := rnd; fetchLog := fl; coldLog := cl |}).
    { cbn. rewrite Hshared. reflexivity. }
    rewrite Hstep.
    assert (Hkeep : forall i x, i <> resultPromise -> ps !! i = Some x ->
              <[resultPromise := Pending (ws ++ [Adopt outer])]> ps !! i = Some x).
    { intros i x Hne Hi. rewrite list_lookup_insert_ne by auto. exact Hi. }
    split; cbn [config storage entries promises clock microtasks fetchLog];
      try assumption.
    + apply list_lookup_insert_eq. exact Hlt.
    + apply Hkeep; auto.
    + exists [], st. split; [left; reflexivity|].
      destruct st as [gp d | gp d o | gp d | f];
        cbn [stage_holds config storage entries promises clock microtasks fetchLog app]
          in Hstage' |- *.
      * destruct Hstage' as (Hg & Hgp & Hd & N1 & N2 & N3 & N4 & Hq' & Hfl).
        repeat split; try assumption; apply Hkeep; auto.
      * destruct Hstage' as (Hg & Hgp & Ho & Hd & N3 & N4 & Hq' & Hfl).
        assert (gp <> resultPromise) by (intros ->; congruence).
        repeat split; try assumption; apply Hkeep; auto.
      * destruct Hstage' as (Hg & (o & Hgp) & Hq' & Hfl).
        assert (gp <> resultPromise) by (intros ->; congruence).
        repeat split; try assumption. exists o. apply Hkeep; auto.
      * destruct Hstage' as (Hgs & Hf & N1 & N2 & Hq' & Hfl).
        repeat split; try assumption; [|apply Hkeep; auto].
        intros gp Hgp. destruct (Hgs gp Hgp) as [o Ho].
        assert (gp <> resultPromise) by (intros ->; congruence).
        exists o. apply Hkeep; auto.
Qed.

(** The configuration never changes while the call is pending. *)
Lemma pending_run (evs : list Event) :
  forall (s : State) (ws : list Reaction),
    pending s ws ->
    clock s - t0 + elapsed evs <= _busyTimeout (config s) ->
    Forall (while_pending url g) evs ->
    exists ws',
      pending (run evs s) ws' /\
      _busyTimeout (config (run evs s)) = _busyTimeout (config s) /\
      waiters_of ws' = waiters_of ws ++ calls_of evs.
Proof.
  induction evs as [|ev evs IH]; intros s ws Hp Hwin Hevs.
  - exists ws. split; [exact Hp|]. split; [reflexivity|].
    cbn. symmetry. apply app_nil_r.
  - apply Forall_cons in Hevs as [Hev Hevs].
    assert (Hel : 0 <= elapsed evs).
    { clear -Hevs. induction evs as [|ev' evs IH]; [cbn; lia|].
      apply Forall_cons in Hevs as [Hev Hevs]. specialize (IH Hevs).
      destruct ev'; cbn in *; try lia. }
    assert (Hstep : exists ws1,
               pending (step ev s) ws1 /\
               config (step ev s) = config s /\
               clock (step ev s) - t0 + elapsed evs <= _busyTimeout (config s) /\
               waiters_of ws1 = waiters_of ws ++ calls_of [ev]).
    { pose proof (pc_time _ _ _ _ _ _ _ _ _ _ _ Hp) as Ht.
      destruct ev as [u [rq|] [c|] | | | p o | dt | ]; cbn in Hev; try contradiction.
      - subst u.
        destruct (pending_called s ws rq c Hp) as (ws1 & H1 & H2);
          [cbn [elapsed] in Hwin; lia|].
        exists ws1. split; [exact H1|].
        assert (E : config (step (Call url (Some rq) (Some c)) s) = config s /\
                    clock (step (Call url (Some rq) (Some c)) s) = clock s).
        { destruct Hp as [Hbusy _ (c0 & e & Hst & He & Htemp & Hrp) Hshared _ _ _].
          subst resultPromise. unfold step.
          rewrite (getCached_waits s url rq c _ e ws Hurl Hst); try assumption.
          - destruct s; split; reflexivity.
          - destruct s. cbn in *.
            destruct (_busyTimeout config0 =? 0) eqn:E; [apply Z.eqb_eq in E; lia|].
            apply Z.ltb_ge. lia. }
        destruct E as [-> ->]. cbn [elapsed] in Hwin. auto.
      - assert (Hmiss : is_miss o) by (destruct o as [[x|]|code]; [contradiction| |]; exact I).
        assert (Hg : g = Some p) by (destruct o as [[x|]|code]; [contradiction| |]; exact Hev).
        pose proof (pending_missed s ws p o Hp Hg Hmiss) as H1.
        exists ws. split; [exact H1|].
        assert (E : config (step (Settles p o) s) = config s /\
                    clock (step (Settles p o) s) = clock s).
        { destruct s. destruct o as [[x|]|code]; [contradiction| |];
            cbn; repeat case_match; split; reflexivity. }
        destruct E as [-> ->]. cbn [elapsed] in Hwin.
        split; [reflexivity|]. split; [exact Hwin|].
        cbn. symmetry. apply app_nil_r.
      - pose proof (pending_elapsed s ws dt Hp Hev) as H1.
        exists ws. split; [exact H1|].
        assert (E : config (step (Elapses dt) s) = config s /\
                    clock (step (Elapses dt) s) = clock s + dt)
          by (destruct s; split; reflexivity).
        destruct E as [-> ->]. cbn [elapsed] in Hwin.
        split; [reflexivity|]. split; [lia|].
        cbn. symmetry. apply app_nil_r.
      - destruct (pending_microtask s ws Hp) as (ws1 & H1 & H2).
        exists ws1. split; [exact H1|].
        assert (E : config (step Microtask s) = config s /\
                    clock (step Microtask s) = clock s).
        { destruct Hp as [_ _ _ _ _ _ (rt & st & Hrt & Hstage)].
          clear H1 H2.
          destruct s as [cfg st0 es rs ps q now rnd fl cl].
          cbn [step microtask microtasks].
          destruct q as [|j q]; [split; reflexivity|].
          assert (Hj : (exists d o, j = ReactionJob (ColdGetCatch d) o) \/
                       j = ReactionJob (AwaitColdGet url request None cb result)
                             (Fulfilled VUndefined) \/
                       j = ResolveThenableJob outer resultPromise).
          { destruct Hrt as [-> | ->];
              destruct st as [gp d | gp d o | gp d | f]; cbn in Hstage;
              decompose [and] Hstage;
              match goal with
              | H : _ :: _ = _ |- _ => injection H as -> ?; eauto
              | H : _ :: _ = [] |- _ => discriminate H
              end. }
          destruct Hj as [(d & o & ->) | [-> | ->]].
          - destruct o; cbn; repeat case_match; split; reflexivity.
          - cbn. repeat case_match; split; reflexivity.
          - cbn. repeat case_match; split; reflexivity. }
        destruct E as [-> ->]. cbn [elapsed] in Hwin.
        split; [reflexivity|]. split; [exact Hwin|].
        rewrite H2. cbn. symmetry. apply app_nil_r. }
    destruct Hstep as (ws1 & H1 & Hcfg & Hwin1 & Hw1).
    destruct (IH (step ev s) ws1 H1) as (ws' & H2 & Hb & Hw2);
      [rewrite Hcfg; exact Hwin1 | exact Hevs |].
    change (run (ev :: evs) s) with (run evs (step ev s)).
    exists ws'. split; [exact H2|]. split; [rewrite Hb, Hcfg; reflexivity|].
    rewrite Hw2, Hw1, <- app_assoc. f_equal.
    unfold calls_of. rewrite <- omap_app. reflexivity.
Qed.

End Pending.


(** ** Arguments *)

(** X1: a call with a falsy argument (an empty key, no request, or no
    callback) fails with the "Bad cache args" error at once: the promise it
    returns is already rejected, the store is not even read, no collaborator
    is called, nothing is queued, and every other promise is as it was. *)
Theorem bad_arguments_rejected (s : State) (url : string)
    (request : option Request) (cb : option Callback) :
  url = "" \/ request = None \/ cb = None ->
  let call := getCached url request cb s in
  promises call.2 !! call.1 = Some (Settled (Rejected BadCacheArgs)) /\
  (forall p, p <> call.1 -> promises call.2 !! p = promises s !! p) /\
  storage call.2 = storage s /\
  entries call.2 = entries s /\
  responses call.2 = responses s /\
  microtasks call.2 = microtasks s /\
  fetchLog call.2 = fetchLog s /\
  coldLog call.2 = coldLog s.
Proof.
  intros Hbad call.
  assert (E : call = (length (promises s),
                      set_promises (fun ps => ps ++ [Settled (Rejected BadCacheArgs)]) s)).
  { subst call. destruct s as [cfg st es rs ps q now rnd fl cl].
    destruct request as [request|], cb as [cb|]; exec;
      try (rewrite app_nil_r; reflexivity).
    destruct Hbad as [-> | [? | ?]]; try discriminate.
    exec. rewrite app_nil_r. reflexivity. }
  rewrite E. destruct s as [cfg st es rs ps q now rnd fl cl]. exec.
  split; [reflexivity|]. split; [|repeat split].
  intros p Hp. destruct (decide (p < length ps)%nat) as [Hlt | Hge].
  - apply lookup_app_l. exact Hlt.
  - rewrite lookup_app_r by lia.
    rewrite (lookup_ge_None_2 ps p) by lia.
    destruct (p - length ps)%nat as [|n] eqn:En; [lia | reflexivity].
Qed.

(** ** A fetched response is stored *)

(** X2: when the coordinator of a call in flight succeeds with a usable
    response and the policy's time-to-live is positive, then once the
    microtasks have run the call is fulfilled with that response object, the
    object carries the policy's sanitised headers with [im2-cache] set to
    [cold] if the result came from the cold storage and to [miss] otherwise,
    and the store holds, in place of the busy marker, a ready entry for the
    key: its cost is 4000 plus the byte length of a [Buffer] body (8000 for
    any other body), it keeps the policy, the cold flag and the call's own
    result promise, and it lives for the time-to-live plus the jitter drawn
    from [Math.random].  The stamp and the cost are stated as read back:
    [im2-cache] read from the response, and the entry's [cost] field spelt
    out on the response's body. *)
Theorem fetched_response_stored (s : State) (url : string)
    (outer result derived resultPromise : PromiseRef)
    (r : ResRef) (x : Response) (h : Headers) (pol : Policy) (cold : bool) :
  in_flight s url outer result derived resultPromise ->
  responses s !! r = Some x ->
  headers x = Some h ->
  0 < timeToLive pol (clock s) ->
  0 <= hd 0 (randoms s) ->
  let s' := quiesce (settle result (Fulfilled (VResult (Some r) pol cold)) s) in
  microtasks s' = [] /\
  promises s' !! outer = Some (Settled (Fulfilled (VResponse r))) /\
  promises s' !! resultPromise = Some (Settled (Fulfilled (VResponse r))) /\
  responses s' !! r =
    Some (with_headers
            (set_header "im2-cache" (if cold then "cold" else "miss")
               (responseHeaders pol (clock s))) x) /\
  storage s' !! url =
    Some {| hit_value := length (entries s); hit_now := clock s;
            hit_maxAge := timeToLive pol (clock s) + hd 0 (randoms s) |} /\
  entries s' !! length (entries s) =
    Some (ready_entry (cost_of x) cold pol resultPromise) /\
  fetchLog s' = fetchLog s /\
  coldLog s' = coldLog s /\
  (exists x', responses s' !! r = Some x' /\
              stamped (if cold then "cold" else "miss") (responseHeaders pol (clock s)) x x' /\
              ttl x' = ttl x) /\
  (exists e', entries s' !! length (entries s) = Some e' /\
              cost e' = 4000 + match body x with
                               | Buffer bytes => Z.of_nat (length bytes)
                               | NotBuffer => 8000
                               end /\
              temp e' = false /\ isError e' = false /\
              policy e' = Some pol /\ inColdStoarge e' = cold /\
              promise e' = resultPromise).
Proof.
  intros [HG HD HR HO (hit & e & Hst & He & Htemp) Hq] Hr Hh Httl Hrnd s'.
  open_state s. distinct. bounds.
  assert (Hrun :
    microtasks s' = [] /\
    promises s' !! outer = Some (Settled (Fulfilled (VResponse r))) /\
    promises s' !! resultPromise = Some (Settled (Fulfilled (VResponse r))) /\
    responses s' !! r =
      Some (with_headers
              (set_header "im2-cache" (if cold then "cold" else "miss")
                 (responseHeaders pol now)) x) /\
    storage s' !! url =
      Some {| hit_value := length es; hit_now := now;
              hit_maxAge := timeToLive pol now + hd 0 rnd |} /\
    entries s' !! length es = Some (ready_entry (cost_of x) cold pol resultPromise) /\
    fetchLog s' = fl /\
    coldLog s' = cl).
  { destruct rnd as [|jitter rnd]; cbn [hd] in *.
    - evaluate s' by exec. destruct cold; repeat split; read.
    - evaluate s' by exec. destruct cold; repeat split; read. }
  destruct Hrun as (R1 & R2 & R3 & R4 & R5 & R6 & R7 & R8).
  repeat (split; [assumption|]).
  split.
  - eexists. split; [exact R4|]. split; [apply stamped_with_headers | reflexivity].
  - eexists. split; [exact R6|]. repeat split.
Qed.

(** ** Demotion to the cold storage *)

(** X8: a second attempt to put an entry in cold storage that follows a
    first one, with no failed write in between, does nothing: whatever the
    first attempt did (a write, with the flag set, or nothing), the second
    issues no write, registers no handler and changes no flag. *)
Theorem putInColdStorage_once (s : State) (url url' : string) (res res' : Value)
    (cached : EntryRef) :
  _putInColdStorage url' res' cached (_putInColdStorage url res cached s) =
  _putInColdStorage url res cached s.
Proof.
  destruct s as [cfg st es rs ps q now rnd fl cl].
  unfold _putInColdStorage at 2. cbn [entries config clock].
  destruct (es !! cached) as [e|] eqn:He; [|exec; reflexivity].
  pose proof (lookup_lt_Some _ _ _ He) as Hlt.
  destruct (inColdStoarge e) eqn:Hflag; [exec; reflexivity|].
  destruct (_coldStorage cfg) eqn:Hcold; [|exec; reflexivity].
  destruct (policy e) as [p|] eqn:Hp; [|exec; reflexivity].
  destruct (3600 * 1000 <=? timeToLive p now) eqn:Httl; exec; reflexivity.
Qed.

(** X9: an entry that leaves the store is demoted.  When a call finds the
    ready entry of its key expired, or live but not satisfying the request,
    the entry is taken out of the store or replaced by the busy marker of
    the new fetch; the dispose callback then waits for the entry's promise
    and, if a cold storage is configured, the entry's flag is off and its
    policy's time-to-live is at least one hour, writes the stored response
    to the cold storage with that time-to-live and sets the flag.  The write
    follows the read that the new call's coordinator issues. *)
Theorem outgoing_entry_demoted (s : State) (url : string) (request : Request)
    (cb : Callback) (h : Hit) (e : Entry) (p : Policy) (r : ResRef) :
  url <> "" ->
  microtasks s = [] ->
  storage s !! url = Some h ->
  entries s !! hit_value h = Some e ->
  temp e = false ->
  policy e = Some p ->
  inColdStoarge e = false ->
  promises s !! promise e = Some (Settled (Fulfilled (VResponse r))) ->
  _coldStorage (config s) = true ->
  3600 * 1000 <= timeToLive p (clock s) ->
  isStale s h = true \/ satisfiesWithoutRevalidation p (clock s) request = false ->
  let s1 := quiesce (getCached url (Some request) (Some cb) s).2 in
  microtasks s1 = [] /\
  flag s1 (hit_value h) = Some true /\
  fetchLog s1 = fetchLog s /\
  exists g w,
    coldLog s1 =
      coldLog s ++
      [ColdGet url g; ColdSet url (VResponse r) (timeToLive p (clock s)) w].
Proof.
  intros Hurl Hq Hst He Htemp Hp Hflag Hr Hcold Httl Hwhy s1.
  open_state s. destruct h as [c t0 age].
  cbn [isStale config clock hit_value hit_now hit_maxAge] in *.
  bounds. unfold flag.
  destruct (if age =? 0
            then negb (lru_maxAge cfg =? 0) && (lru_maxAge cfg <? now - t0)
            else age <? now - t0) eqn:Hstale.
  - evaluate s1 by exec.
    split; [reflexivity|]. split; [read|]. split; [reflexivity|].
    eexists _, _. reflexivity.
  - destruct Hwhy as [? | Hsat]; [discriminate|].
    evaluate s1 by exec.
    split; [reflexivity|]. split; [read|]. split; [reflexivity|].
    eexists _, _. reflexivity.
Qed.

(** X11: demotion on a hit is fire-and-forget, and a failed write is
    retried.  A hit on a live ready entry whose flag is off and whose
    policy's time-to-live is at least one hour, in a cache with a cold
    storage, writes the stored response to the cold storage and sets the
    flag; the call is fulfilled while that write is still pending.  If the
    write then fails, the flag goes off again and the caller's result is
    untouched; the next hit on the entry issues the write anew. *)
Theorem failed_write_retried_on_next_hit (s : State) (url : string)
    (request : Request) (cb : Callback) (h : Hit) (e : Entry) (p : Policy)
    (r : ResRef) (x : Response) (code : nat) :
  url <> "" ->
  microtasks s = [] ->
  storage s !! url = Some h ->
  isStale s h = false ->
  entries s !! hit_value h = Some e ->
  temp e = false ->
  policy e = Some p ->
  inColdStoarge e = false ->
  satisfiesWithoutRevalidation p (clock s) request = true ->
  promises s !! promise e = Some (Settled (Fulfilled (VResponse r))) ->
  responses s !! r = Some x ->
  _coldStorage (config s) = true ->
  3600 * 1000 <= timeToLive p (clock s) ->
  let first := getCached url (Some request) (Some cb) s in
  let s1 := quiesce first.2 in
  let write w := ColdSet url (VResponse r) (timeToLive p (clock s)) w in
  exists w d,
    (coldLog s1 = coldLog s ++ [write w] /\
     flag s1 (hit_value h) = Some true /\
     promises s1 !! w = Some (Pending [ColdSetCatch (hit_value h) d]) /\
     promises s1 !! first.1 = Some (Settled (Fulfilled (VResponse r)))) /\
    let s2 := quiesce (external w (Rejects code) s1) in
    (microtasks s2 = [] /\
     flag s2 (hit_value h) = Some false /\
     promises s2 !! first.1 = Some (Settled (Fulfilled (VResponse r))) /\
     coldLog s2 = coldLog s1) /\
    let s3 := quiesce (getCached url (Some request) (Some cb) s2).2 in
    exists w',
      coldLog s3 = coldLog s ++ [write w; write w'] /\
      flag s3 (hit_value h) = Some true.
Proof.
  intros Hurl Hq Hst Hlive He Htemp Hp Hflag Hsat Hr Hx Hcold Httl first s1 write.
  open_state s. destruct h as [c t0 age].
  cbn [isStale config clock hit_value hit_now hit_maxAge] in *.
  bounds. unfold flag. subst write.
  evaluate first by exec. cbn [fst snd] in s1 |- *.
  evaluate s1 by exec.
  exists (length ps + 1)%nat, (length ps + 2)%nat.
  split; [repeat split; read|].
  set (s2 := quiesce _). evaluate s2 by exec.
  split; [repeat split; read|].
  set (s3 := quiesce _). evaluate s3 by exec.
  eexists. split; read.
Qed.

(** X14: a write that succeeded is not repeated.  After a hit has
    demoted an entry and the cold storage has acknowledged the write, the
    flag stays on, and the next hit on the entry serves the response without
    writing to the cold storage again. *)
Theorem successful_write_not_repeated (s : State) (url : string)
    (request : Request) (cb : Callback) (h : Hit) (e : Entry) (p : Policy)
    (r : ResRef) (x : Response) :
  url <> "" ->
  microtasks s = [] ->
  storage s !! url = Some h ->
  isStale s h = false ->
  entries s !! hit_value h = Some e ->
  temp e = false ->
  policy e = Some p ->
  inColdStoarge e = false ->
  satisfiesWithoutRevalidation p (clock s) request = true ->
  promises s !! promise e = Some (Settled (Fulfilled (VResponse r))) ->
  responses s !! r = Some x ->
  _coldStorage (config s) = true ->
  3600 * 1000 <= timeToLive p (clock s) ->
  let s1 := quiesce (getCached url (Some request) (Some cb) s).2 in
  exists w,
    coldLog s1 = coldLog s ++ [ColdSet url (VResponse r) (timeToLive p (clock s)) w] /\
    let s2 := quiesce (external w (Resolves None) s1) in
    (microtasks s2 = [] /\ flag s2 (hit_value h) = Some true) /\
    let second := getCached url (Some request) (Some cb) s2 in
    let s3 := quiesce second.2 in
    microtasks s3 = [] /\
    coldLog s3 = coldLog s1 /\
    flag s3 (hit_value h) = Some true /\
    promises s3 !! second.1 = Some (Settled (Fulfilled (VResponse r))).
Proof.
  intros Hurl Hq Hst Hlive He Htemp Hp Hflag Hsat Hr Hx Hcold Httl s1.
  open_state s. destruct h as [c t0 age].
  cbn [isStale config clock hit_value hit_now hit_maxAge] in *.
  bounds. unfold flag.
  evaluate s1 by exec.
  exists (length ps + 1)%nat.
  split; [reflexivity|].
  set (s2 := quiesce _). evaluate s2 by exec.
  split; [split; read|].
  set (second := getCached _ _ _ _). evaluate second by exec.
  cbn [fst snd].
  set (s3 := quiesce _). evaluate s3 by exec.
  repeat split; read.
Qed.

(** ** Expiry *)

(** X7: the busy marker protects a key only for its age limit.  When a
    call finds that the store has expired the marker of a fetch still under
    way, it does not wait for that fetch: the call invokes its own fetch
    callback, with an empty header map (after the miss of the cold storage,
    if there is one), and stays pending on that second fetch. *)
Theorem expired_marker_fetches_again (s : State) (url : string) (request : Request)
    (cb : Callback) (h : Hit) (e : Entry) (dt : Z) (miss : Settlement) :
  url <> "" ->
  microtasks s = [] ->
  storage s !! url = Some h ->
  entries s !! hit_value h = Some e ->
  temp e = true ->
  isStale (elapse dt s) h = true ->
  is_miss miss ->
  let call := getCached url (Some request) (Some cb) (elapse dt s) in
  let s' := cold_answer miss (quiesce call.2) in
  exists f result,
    fetchLog s' = fetchLog s ++ [{| fc_callback := cb; fc_headers := [];
                                    fc_promise := f |}] /\
    promises s' !! f = Some (Pending [AwaitFetch request result]) /\
    promises s' !! call.1 = Some (Pending []) /\
    microtasks s' = [].
Proof.
  intros Hurl Hq Hst He Htemp Hstale Hmiss call s'.
  open_state s. destruct h as [c t0 age].
  cbn [elapse set_clock isStale config clock hit_value hit_now hit_maxAge] in *.
  bounds.
  evaluate call by exec. cbn [fst snd] in s' |- *.
  destruct (_coldStorage cfg) eqn:Hcold.
  - destruct miss as [[x|]|code]; [contradiction| |].
    + evaluate s' by exec. eexists _, _; (split; [exec; reflexivity|]); repeat split; read.
    + evaluate s' by exec. eexists _, _; (split; [exec; reflexivity|]); repeat split; read.
  - evaluate s' by exec. eexists _, _; (split; [exec; reflexivity|]); repeat split; read.
Qed.

(** X10: an entry that the store has expired is not revalidated.  When a
    call finds that the ready entry of its key is older than its age limit,
    the entry's policy is not consulted: the call invokes its fetch callback
    with an empty header map, not with revalidation headers; with a cold
    storage, it does so once the read of the cold storage has missed. *)
Theorem expired_entry_fetched_afresh (s : State) (url : string) (request : Request)
    (cb : Callback) (h : Hit) (e : Entry) (p : Policy) (r : ResRef) :
  url <> "" ->
  microtasks s = [] ->
  storage s !! url = Some h ->
  isStale s h = true ->
  entries s !! hit_value h = Some e ->
  temp e = false ->
  policy e = Some p ->
  promises s !! promise e = Some (Settled (Fulfilled (VResponse r))) ->
  let call := getCached url (Some request) (Some cb) s in
  let s1 := quiesce call.2 in
  let fetch f := {| fc_callback := cb; fc_headers := []; fc_promise := f |} in
  microtasks s1 = [] /\
  if _coldStorage (config s) then
    fetchLog s1 = fetchLog s /\
    exists g,
      coldLog call.2 = coldLog s ++ [ColdGet url g] /\
      forall miss : Settlement,
        is_miss miss ->
        let s2 := quiesce (external g miss s1) in
        microtasks s2 = [] /\ exists f, fetchLog s2 = fetchLog s ++ [fetch f]
  else exists f, fetchLog s1 = fetchLog s ++ [fetch f].
Proof.
  intros Hurl Hq Hst Hstale He Htemp Hp Hr call s1 fetch.
  open_state s. destruct h as [c t0 age].
  cbn [isStale config clock hit_value hit_now hit_maxAge] in *.
  bounds.
  evaluate call by exec. cbn [fst snd] in s1 |- *.
  destruct (_coldStorage cfg) eqn:Hcold.
  - destruct (inColdStoarge e) eqn:Hflag;
      [|destruct (3600 * 1000 <=? timeToLive p now) eqn:Httl].
    all: evaluate s1 by exec.
    all: split; [reflexivity|]; split; [reflexivity|].
    all: eexists; split; [exec; reflexivity|].
    all: intros miss Hmiss; set (s2 := quiesce _);
      destruct miss as [[x|]|code]; [contradiction| |].
    all: evaluate s2 by exec.
    all: split; [reflexivity|]; eexists; reflexivity.
  - destruct (inColdStoarge e) eqn:Hflag.
    all: evaluate s1 by exec.
    all: split; [reflexivity|]; eexists; reflexivity.
Qed.

(** ** Reading back from the cold storage *)


(** ** A caller that waits for another caller's fetch *)

(** X6: a caller that arrives while another caller's fetch for the same
    key is under way shares that fetch's failure.  Two calls in a row for a
    key with no entry: the first invokes its fetch callback, the second only
    waits; when the callback's promise rejects, both calls fail with that
    rejection, and the second caller's callback is never invoked. *)
Theorem waiter_shares_failure (s : State) (url : string)
    (request1 request2 : Request) (cb1 cb2 : Callback)
    (miss : Settlement) (code : nat) :
  url <> "" ->
  microtasks s = [] ->
  storage s !! url = None ->
  0 < _busyTimeout (config s) ->
  is_miss miss ->
  let all := getCached_all url [(request1, cb1); (request2, cb2)] s in
  let s1 := cold_answer miss (quiesce all.2) in
  exists f,
    fetchLog s1 = fetchLog s ++ [{| fc_callback := cb1; fc_headers := [];
                                    fc_promise := f |}] /\
    let s2 := quiesce (external f (Rejects code) s1) in
    microtasks s2 = [] /\
    fetchLog s2 = fetchLog s1 /\
    Forall (fun o => promises s2 !! o = Some (Settled (Rejected (External code))))
      all.1.
Proof.
  intros Hurl Hq Hst Hbusy Hmiss all s1.
  open_state s.
  destruct (_coldStorage cfg) eqn:Hcold.
  - destruct miss as [[x|]|c]; [contradiction| |].
    all: evaluate all by (cbn [getCached_all]; exec); cbn [fst snd] in s1 |- *.
    all: evaluate s1 by exec; eexists; (split; [reflexivity|]).
    all: set (s2 := quiesce _); evaluate s2 by exec.
    all: split; [reflexivity|]; split; [reflexivity|].
    all: repeat constructor; read.
  - evaluate all by (cbn [getCached_all]; exec). cbn [fst snd] in s1 |- *.
    evaluate s1 by exec. eexists. split; [reflexivity|].
    set (s2 := quiesce _). evaluate s2 by exec.
    split; [reflexivity|]. split; [reflexivity|].
    repeat constructor; read.
Qed.

(** X5: a caller that arrives while another caller's fetch for the same
    key is under way shares that fetch's response.  Two calls in a row for a
    key with no entry; the fetch callback of the first answers with a
    response (not a 304) that has headers and a positive time-to-live, and the policy
    computed from it satisfies the second request.  Then only the first
    caller's callback was ever invoked, both calls are fulfilled with one
    and the same response object, and since the second call is served as a
    hit, that object ends up stamped [im2-cache: hit] (not [miss]) and
    carrying the [ttl] field: read back from it, [im2-cache] is [hit] and
    [ttl] is the policy's time-to-live. *)
Theorem waiter_shares_response (s : State) (url : string)
    (request1 request2 : Request) (cb1 cb2 : Callback)
    (miss : Settlement) (x : Response) (h : Headers) :
  url <> "" ->
  microtasks s = [] ->
  storage s !! url = None ->
  0 < _busyTimeout (config s) ->
  is_miss miss ->
  status x <> 304 ->
  headers x = Some h ->
  0 < timeToLive (newPolicy (clock s) request1 x) (clock s) ->
  0 <= hd 0 (randoms s) ->
  satisfiesWithoutRevalidation (newPolicy (clock s) request1 x) (clock s) request2 = true ->
  let pol := newPolicy (clock s) request1 x in
  let all := getCached_all url [(request1, cb1); (request2, cb2)] s in
  let s1 := cold_answer miss (quiesce all.2) in
  let r := length (responses s) in
  exists f,
    fetchLog s1 = fetchLog s ++ [{| fc_callback := cb1; fc_headers := [];
                                    fc_promise := f |}] /\
    let s2 := quiesce (external f (Resolves (Some x)) s1) in
    microtasks s2 = [] /\
    fetchLog s2 = fetchLog s1 /\
    Forall (fun o => promises s2 !! o = Some (Settled (Fulfilled (VResponse r)))) all.1 /\
    responses s2 !! r =
      Some (with_ttl (timeToLive pol (clock s))
              (with_headers
                 (set_header "im2-cache" "hit" (responseHeaders pol (clock s))) x)) /\
    exists x', responses s2 !! r = Some x' /\
               stamped "hit" (responseHeaders pol (clock s)) x x' /\
               ttl x' = Some (timeToLive pol (clock s)).
Proof.
  intros Hurl Hq Hst Hbusy Hmiss Hstatus Hh Httl Hrnd Hsat pol all s1 r.
  open_state s. subst pol r.
  assert (Hjit : exists jitter rnd', 0 <= jitter /\
                   (rnd = [] /\ jitter = 0 \/ rnd = jitter :: rnd')).
  { destruct rnd as [|j rnd']; [exists 0, [] | exists j, rnd']; cbn in Hrnd; auto with lia. }
  clear Hrnd. destruct Hjit as (jitter & rnd' & Hj & Hrnd).
  destruct (_coldStorage cfg) eqn:Hcold.
  - destruct miss as [[x0|]|c]; [contradiction| |].
    all: destruct Hrnd as [[-> ->] | ->].
    all: evaluate all by (cbn [getCached_all]; exec); cbn [fst snd] in s1 |- *.
    all: evaluate s1 by exec; eexists; (split; [reflexivity|]).
    all: set (s2 := quiesce _).
    all: destruct (3600 * 1000 <=? timeToLive (newPolicy now request1 x) now) eqn:Hlong.
    all: evaluate s2 by exec.
    all: split; [reflexivity|]; split; [reflexivity|].
    all: split; [repeat constructor; read|]; split; [read|].
    all: eexists; split; [read|]; split; [observe | reflexivity].
  - destruct Hrnd as [[-> ->] | ->].
    all: evaluate all by (cbn [getCached_all]; exec); cbn [fst snd] in s1 |- *.
    all: evaluate s1 by exec; eexists; (split; [reflexivity|]).
    all: set (s2 := quiesce _); evaluate s2 by exec.
    all: split; [reflexivity|]; split; [reflexivity|].
    all: split; [repeat constructor; read|]; split; [read|].
    all: eexists; split; [read|]; split; [observe | reflexivity].
Qed.

(** X13: a response that may not be cached is not shared.  Two calls in
    a row for a key with no entry; the fetch callback of the first answers
    with a response (not a 304) that has headers, and the policy's
    time-to-live for it is zero.  The first call is fulfilled with that
    response, stamped [im2-cache: no-cache] (as read back from the response
    object); the second call, which waited
    for it, finds no entry and invokes its own fetch callback, with an empty
    header map (after another miss of the cold storage, if there is one),
    and is still pending on that fetch. *)
Theorem uncacheable_response_not_shared (s : State) (url : string)
    (request1 request2 : Request) (cb1 cb2 : Callback)
    (miss : Settlement) (x : Response) (h : Headers) :
  url <> "" ->
  microtasks s = [] ->
  storage s !! url = None ->
  0 < _busyTimeout (config s) ->
  is_miss miss ->
  status x <> 304 ->
  headers x = Some h ->
  timeToLive (newPolicy (clock s) request1 x) (clock s) = 0 ->
  let pol := newPolicy (clock s) request1 x in
  let all := getCached_all url [(request1, cb1); (request2, cb2)] s in
  let s1 := cold_answer miss (quiesce all.2) in
  let r := length (responses s) in
  let fetch cb f := {| fc_callback := cb; fc_headers := []; fc_promise := f |} in
  exists f o1 o2,
    all.1 = [o1; o2] /\
    fetchLog s1 = fetchLog s ++ [fetch cb1 f] /\
    let s2 := cold_answer miss (quiesce (external f (Resolves (Some x)) s1)) in
    microtasks s2 = [] /\
    (exists f', fetchLog s2 = fetchLog s ++ [fetch cb1 f; fetch cb2 f']) /\
    promises s2 !! o1 = Some (Settled (Fulfilled (VResponse r))) /\
    promises s2 !! o2 = Some (Pending []) /\
    responses s2 !! r =
      Some (with_headers
              (set_header "im2-cache" "no-cache" (responseHeaders pol (clock s))) x) /\
    exists x', responses s2 !! r = Some x' /\
               stamped "no-cache" (responseHeaders pol (clock s)) x x' /\
               ttl x' = ttl x.
Proof.
  intros Hurl Hq Hst Hbusy Hmiss Hstatus Hh Httl pol all s1 r fetch.
  open_state s. subst pol r fetch.
  assert (Hlast : forall (l : list ColdCall) a b, last (l ++ [a; b]) = Some b).
  { intros l a b. change (l ++ [a; b]) with (l ++ [a] ++ [b]).
    rewrite app_assoc. apply last_snoc. }
  destruct (_coldStorage cfg) eqn:Hcold.
  - destruct miss as [[x0|]|c]; [contradiction| |].
    all: evaluate all by (cbn [getCached_all]; exec); cbn [fst snd] in s1 |- *.
    all: evaluate s1 by exec; eexists _, _, _; (split; [reflexivity|]).
    all: split; [reflexivity|].
    all: set (s2 := cold_answer _ _);
      evaluate s2 by (repeat first [exec1 | rewrite Hlast]).
    all: split; [reflexivity|]; split; [eexists; reflexivity|].
    all: split; [read|]; split; [read|]; split; [read|].
    all: eexists; split; [read|]; split; [observe | reflexivity].
  - evaluate all by (cbn [getCached_all]; exec). cbn [fst snd] in s1 |- *.
    evaluate s1 by exec. eexists _, _, _. split; [reflexivity|].
    split; [reflexivity|].
    set (s2 := cold_answer _ _). evaluate s2 by exec.
    split; [reflexivity|]. split; [eexists; reflexivity|].
    split; [read|]. split; [read|]. split; [read|].
    eexists. split; [read|]. split; [observe | reflexivity].
Qed.

(** ** The other outcomes of a revalidation *)

(** The answer to the revalidation request, once that request is out. *)
Ltac answered p now request e :=
  eexists; split; [exec; reflexivity|];
  let x := fresh "x" in
  intros x; cbn [clock promises];
  let pol := fresh "pol" in
  let modified := fresh "modified" in
  let Hverdict := fresh "Hverdict" in
  destruct (revalidatedPolicy p now (revalidationHeaders p now request) (Some x))
    as [pol modified] eqn:Hverdict;
  cbn [fst snd]; split;
  [ exists (with_policy pol e); split; [|repeat split];
    destruct modified;
    [ destruct (status x =? 304) eqn:?; exec
    | exec;
      match goal with
      | |- context [ ?l !! promise e ] => destruct (l !! promise e) as [[?|?]|]
      end ];
    read
  | let Hx := fresh "Hx" in
    intros -> Hx;
    let s2 := fresh "s2" in
    set (s2 := quiesce _); evaluate s2 by exec;
    split; [read|]; split; [read|];
    split; [exists (with_policy pol e); split; [read | repeat split] | read] ].

(** X4: let [_getResult] be given a ready entry and let the cold storage
    have no copy, so that the coordinator has sent the revalidation request.
    When the answer is a response and the policy's verdict on it is
    "modified", while the answer's status is not 304, the coordinator makes
    no further fetch and yields the answer itself together with the updated
    policy.  Whatever the verdict, the updated policy is written into the
    entry object in place (line 98) before the coordinator yields, so the
    store sees it at once: the object's [policy] field reads as the updated
    policy, and its other fields read as they did before. *)
Theorem modified_answer_returned (s : State) (url : string) (request : Request)
    (c : EntryRef) (e : Entry) (p : Policy) (cb : Callback) (miss : Settlement) :
  microtasks s = [] ->
  entries s !! c = Some e ->
  policy e = Some p ->
  isError e = false ->
  is_miss miss ->
  let started := _getResult url request (Some c) cb s in
  let s1 := cold_answer miss started.2 in
  let hdrs := revalidationHeaders p (clock s) request in
  exists f,
    fetchLog s1 = fetchLog s ++ [{| fc_callback := cb; fc_headers := hdrs; fc_promise := f |}] /\
    forall x : Response,
      let s2 := quiesce (external f (Resolves (Some x)) s1) in
      let verdict := revalidatedPolicy p (clock s) hdrs (Some x) in
      (exists e', entries (microtask (external f (Resolves (Some x)) s1)) !! c = Some e' /\
                  policy_replaced verdict.1 e e') /\
      (verdict.2 = true ->
       status x <> 304 ->
       microtasks s2 = [] /\
       fetchLog s2 = fetchLog s1 /\
       (exists e', entries s2 !! c = Some e' /\ policy_replaced verdict.1 e e') /\
       promises s2 !! started.1 =
         Some (Settled (Fulfilled (VResult (Some (length (responses s1))) verdict.1 false)))).
Proof.
  intros Hq He Hp Herr Hmiss started s1 hdrs.
  open_state s. bounds.
  assert (Htarget : forall cfg' st' rs' ps' q' now' rnd' fl' cl',
             revalidation_target
               {| config := cfg'; storage := st'; entries := es; responses := rs';
                  promises := ps'; microtasks := q'; clock := now'; randoms := rnd';
                  fetchLog := fl'; coldLog := cl' |} (Some c) = Some (c, p)).
  { intros. cbn. rewrite He, Herr, Hp. reflexivity. }
  destruct (_coldStorage cfg) eqn:Hcold.
  - destruct miss as [[x|]|code]; [contradiction| |].
    + evaluate started by exec. cbn [fst snd] in s1 |- *.
      evaluate s1 by (repeat first [exec1 | rewrite Htarget]).
      subst hdrs. answered p now request e.
    + evaluate started by exec. cbn [fst snd] in s1 |- *.
      evaluate s1 by (repeat first [exec1 | rewrite Htarget]).
      subst hdrs. answered p now request e.
  - evaluate started by (repeat first [exec1 | rewrite Htarget]).
    cbn [fst snd] in s1 |- *.
    evaluate s1 by exec.
    subst hdrs. answered p now request e.
Qed.

(** X12: a revalidation that finds the stored response still good, seen
    from the caller.  In a cache without cold storage, a call whose request
    the live ready entry's policy does not satisfy sends the revalidation
    request; when the policy's verdict on the answer is "not modified" (and
    the updated policy's time-to-live is positive), the call is fulfilled
    with the response object that was stored before, not with the answer;
    that object gets the updated policy's headers and is stamped
    [im2-cache: miss] (read back from the object: [im2-cache] is [miss],
    every other header is the updated policy's); and the store holds a new ready entry with the updated
    policy, set at the current time. *)
Theorem not_modified_response_restored (s : State) (url : string) (request : Request)
    (cb : Callback) (h : Hit) (e : Entry) (p : Policy) (r : ResRef)
    (x answer : Response) (hs : Headers) :
  url <> "" ->
  microtasks s = [] ->
  storage s !! url = Some h ->
  isStale s h = false ->
  entries s !! hit_value h = Some e ->
  temp e = false ->
  policy e = Some p ->
  isError e = false ->
  satisfiesWithoutRevalidation p (clock s) request = false ->
  promises s !! promise e = Some (Settled (Fulfilled (VResponse r))) ->
  responses s !! r = Some x ->
  headers x = Some hs ->
  _coldStorage (config s) = false ->
  let hdrs := revalidationHeaders p (clock s) request in
  let verdict := revalidatedPolicy p (clock s) hdrs (Some answer) in
  verdict.2 = false ->
  0 < timeToLive verdict.1 (clock s) ->
  0 <= hd 0 (randoms s) ->
  let call := getCached url (Some request) (Some cb) s in
  let s1 := quiesce call.2 in
  exists f,
    fetchLog s1 = fetchLog s ++ [{| fc_callback := cb; fc_headers := hdrs; fc_promise := f |}] /\
    let s2 := quiesce (external f (Resolves (Some answer)) s1) in
    microtasks s2 = [] /\
    fetchLog s2 = fetchLog s1 /\
    promises s2 !! call.1 = Some (Settled (Fulfilled (VResponse r))) /\
    responses s2 !! r =
      Some (with_headers
              (set_header "im2-cache" "miss" (responseHeaders verdict.1 (clock s))) x) /\
    (exists x', responses s2 !! r = Some x' /\
                stamped "miss" (responseHeaders verdict.1 (clock s)) x x' /\
                ttl x' = ttl x) /\
    exists c resultPromise,
      storage s2 !! url =
        Some {| hit_value := c; hit_now := clock s;
                hit_maxAge := timeToLive verdict.1 (clock s) + hd 0 (randoms s) |} /\
      entries s2 !! c = Some (ready_entry (cost_of x) false verdict.1 resultPromise).
Proof.
  intros Hurl Hq Hst Hlive He Htemp Hp Herr Hsat Hr Hx Hhs Hcold hdrs verdict
    Hsame Httl Hrnd call s1.
  subst hdrs verdict.
  open_state s. destruct h as [c t0 age].
  cbn [isStale config clock hit_value hit_now hit_maxAge] in *.
  destruct (revalidatedPolicy p now (revalidationHeaders p now request) (Some answer))
    as [pol modified] eqn:Hverdict.
  cbn [fst snd] in *. subst modified.
  bounds.
  destruct (inColdStoarge e) eqn:Hflag.
  all: evaluate call by exec; cbn [fst snd] in s1 |- *.
  all: evaluate s1 by exec.
  all: eexists; (split; [reflexivity|]).
  all: set (s2 := quiesce _).
  all: destruct rnd as [|jitter rnd]; cbn [hd] in *.
  all: evaluate s2 by exec.
  all: split; [reflexivity|]; split; [reflexivity|]; split; [read|].
  all: split; [read|].
  all: split; [eexists; split; [read|]; split; [observe | reflexivity]|].
  all: eexists _, _; (split; [read|]); read.
Qed.

(** ** [dump] *)

(** The handler of the one element of an array has no other element to
    wait for. *)
Lemma filter_other_alone (b : nat) : filter (fun d : nat => d <> b) [b] = [].
Proof. rewrite filter_cons_False by (intros Hb; apply Hb; reflexivity). reflexivity. Qed.

(** X16: [dump] on a store whose one item is a live Ready entry with the
    flag off and a fulfilled promise.  The store, the entries' policies and
    the fetch log are left as they are, and once the microtasks have run the
    promise that [dump] returned is fulfilled with an array of one
    [undefined].  If a cold storage is configured and the time-to-live of
    the entry's policy is at least one hour, the value of the entry's
    promise has been written to the cold storage under the key with that
    time-to-live, one write, and the flag is on; otherwise nothing was
    written and the flag is off. *)
Theorem dump_demotes_entry (s : State) (url : string) (h : Hit) (e : Entry)
    (p : Policy) (v : Value) :
  microtasks s = [] ->
  storage s = {[url := h]} ->
  isStale s h = false ->
  entries s !! hit_value h = Some e ->
  temp e = false ->
  policy e = Some p ->
  inColdStoarge e = false ->
  promises s !! promise e = Some (Settled (Fulfilled v)) ->
  let d := dump s in
  let s' := quiesce d.2 in
  let t := timeToLive p (clock s) in
  microtasks s' = [] /\
  storage s' = storage s /\
  fetchLog s' = fetchLog s /\
  promises s' !! d.1 = Some (Settled (Fulfilled (VArray [VUndefined]))) /\
  (_coldStorage (config s) = true -> 3600 * 1000 <= t ->
   flag s' (hit_value h) = Some true /\
   exists w, coldLog s' = coldLog s ++ [ColdSet url v t w]) /\
  (_coldStorage (config s) = false \/ t < 3600 * 1000 ->
   flag s' (hit_value h) = Some false /\ coldLog s' = coldLog s).
Proof.
  intros Hq Hst Hlive He Htemp Hpol Hflag Hp.
  assert (Hd : dump s = let '(arr, s1) := dump_item ([], s) (url, h) in promise_all arr s1).
  { unfold dump, storage_live. rewrite Hst, map_to_list_singleton.
    rewrite filter_cons_True by exact Hlive. reflexivity. }
  rewrite Hd. clear Hd Hlive Hst.
  intros d s' t.
  destruct h as [c t0 age]. cbn [hit_value] in *.
  open_state s. bounds.
  evaluate d by (repeat first [exec1 | progress cbn [dump_item promise_all]]).
  cbn [fst snd] in *.
  assert (Hflags : forall b, flag (set_entries (fun es => <[c := with_inColdStoarge b e]> es)
                                     {| config := cfg; storage := st; entries := es;
                                        responses := rs; promises := ps; microtasks := [];
                                        clock := now; randoms := rnd; fetchLog := fl;
                                        coldLog := cl |}) c = Some b).
  { intros b. unfold flag. cbn. rewrite list_lookup_insert_eq by assumption. reflexivity. }
  destruct (_coldStorage cfg) eqn:Hcold;
    [destruct (3600 * 1000 <=? timeToLive p now) eqn:Httl|];
    evaluate s' by
      (repeat first [ exec1
                    | progress cbn [all_element is_settled forallb seq length]
                    | rewrite filter_other_alone
                    | progress unfold fulfilment ]).
  - split; [reflexivity|]. split; [reflexivity|]. split; [reflexivity|].
    split; [read|]. split.
    + intros _ _. split; [apply (Hflags true)|]. eexists. reflexivity.
    + intros [Hno | Hshort]; [cbn in Hno; congruence|]. cbn in Hshort.
      apply Z.leb_le in Httl. subst t. lia.
  - split; [reflexivity|]. split; [reflexivity|]. split; [reflexivity|].
    split; [read|]. split.
    + intros _ Hlong. cbn in Hlong. apply Z.leb_gt in Httl. subst t. lia.
    + intros _. split; [|reflexivity]. unfold flag. cbn [entries]. rewrite He. cbn. rewrite Hflag. reflexivity.
  - split; [reflexivity|]. split; [reflexivity|]. split; [reflexivity|].
    split; [read|]. split.
    + intros Hyes. cbn in Hyes. congruence.
    + intros _. split; [|reflexivity]. unfold flag. cbn [entries]. rewrite He. cbn. rewrite Hflag. reflexivity.
Qed.
End Verification.

(** ** Worked instances *)

Import Toy Scenario.

(** C9: the default maximum cost is not 500 * 10^6. *)
Lemma default_size_is_not_500_million :
  opt_size no_options = None /\ lru_max (constructor no_options) <> 500 * 10 ^ 6.
Proof. split; [reflexivity | vm_compute; discriminate]. Qed.

Lemma constructor_defaults_witness :
  _busyTimeout (constructor no_options) = 2000 /\
  _errorTimeout (constructor no_options) = 200 /\
  lru_max (constructor no_options) = 524288000 /\
  lru_maxAge (constructor no_options) = 24 * 60 * 60 * 1000.
Proof.
  destruct (constructor_defaults no_options) as (H1 & H2 & H3 & H4).
  split; [apply H1; reflexivity|].
  split; [apply H2; reflexivity|].
  split; [apply H3; reflexivity | apply H4; reflexivity].
Defined.

(** C5 at work: the response of the call in flight is uncacheable; the
    caller receives it with the header [im2-cache: no-cache] and the store
    is left without an entry for the key. *)
Lemma zero_ttl_not_stored_witness :
  let s := (new_response uncacheable calling).2 in
  let s' := quiesce (settle 1%nat (Fulfilled (VResult (Some 0%nat) (make 1000 uncacheable) false)) s) in
  (microtasks s' = [] /\
   storage s' !! "k" = None /\
   responses s' !! 0%nat =
     Some (with_headers
             (set_header "im2-cache" "no-cache"
                (responseHeaders (make 1000 uncacheable) (clock s))) uncacheable) /\
   (exists x', responses s' !! 0%nat = Some x' /\
               stamped "no-cache" (responseHeaders (make 1000 uncacheable) (clock s))
                 uncacheable x' /\
               ttl x' = ttl uncacheable) /\
   promises s' !! 0%nat = Some (Settled (Fulfilled (VResponse 0)))) /\
  responses s' !! 0%nat =
    Some {| status := 200;
            headers := Some [("max-age", "0"); ("im2-cache", "no-cache")];
            body := NotBuffer; ttl := None |}.
Proof.
  split; [|reflexivity].
  apply (zero_ttl_not_stored (new_response uncacheable calling).2 "k" 0 1 3 4 0
           uncacheable [("max-age", "0")] (make 1000 uncacheable) false).
  - constructor; try reflexivity.
    exists {| hit_value := 0%nat; hit_now := 1000; hit_maxAge := 2000 |},
           {| cost := 1; temp := true; isError := false; policy := None;
              inColdStoarge := false; promise := 4%nat |}.
    split; [reflexivity|]. split; reflexivity.
  - reflexivity.
  - reflexivity.
  - reflexivity.
Defined.

(** C5 fails as stated: two calls for the key, and a response that may not
    be cached.  The handler of lines 55-71 deletes the entry, but the
    continuation of the second call runs before the promise of the first
    call is fulfilled: it calls [getCached] again, which fetches again and
    writes a new busy marker.  When the first call is fulfilled with the
    response, marked [no-cache], the store holds an entry for the key. *)
Lemma waiter_restores_marker :
  let s1 := quiesce (getCached_all "k" [(get, 1%nat); (get, 2%nat)] fresh).2 in
  let s2 := external 2%nat (Resolves (Some uncacheable)) s1 in
  storage fresh !! "k" = None /\
  timeToLive (make 1000 uncacheable) (clock s1) = 0 /\
  storage (drain 2 s2) !! "k" = None /\
  promises (drain 4 s2) !! 0%nat = Some (Pending []) /\
  storage (drain 4 s2) !! "k" =
    Some {| hit_value := 1%nat; hit_now := 1000; hit_maxAge := 2000 |} /\
  promises (drain 5 s2) !! 0%nat = Some (Settled (Fulfilled (VResponse 0))) /\
  responses (drain 5 s2) !! 0%nat =
    Some {| status := 200;
            headers := Some [("max-age", "0"); ("im2-cache", "no-cache")];
            body := NotBuffer; ttl := None |} /\
  storage (drain 5 s2) !! "k" <> None /\
  microtasks (quiesce s2) = [] /\
  storage (quiesce s2) !! "k" <> None /\
  entries (quiesce s2) !! 1%nat =
    Some {| cost := 1; temp := true; isError := false; policy := None;
            inColdStoarge := false; promise := 10%nat |}.
Proof.
  repeat (split; [first [reflexivity | intros H; vm_compute in H; discriminate H]|]).
  reflexivity.
Qed.


(** C2, the code at the failing input: a cache with the default options,
    one call for the key ["k"], and a fetch callback that answers with a
    response object without headers.  The handler of lines 55-71 deletes the
    entry (line 69) and throws the "Empty result" error (line 70): after it
    has run the store has no entry for the key.  The handler of lines 72-76,
    chained on it, catches that very error and stores an error entry in the
    place of the one deleted: when the call has failed with the "Empty
    result" error, the store holds an entry for the key, flagged as an
    error, for the error timeout of 200 ms, and a second call made then is
    answered with the stored failure and fetches nothing.  A fetch callback
    that answers with [undefined] does not get as far as line 68: the call
    fails with a [TypeError], stored as an error entry in the same way. *)
Lemma empty_result_leaves_error_entry :
  let s0 := external 2%nat (Resolves (Some headerless)) calling in
  let s' := quiesce s0 in
  let again := getCached "k" (Some get) (Some 2%nat) s' in
  let u' := quiesce (external 2%nat (Resolves None) calling) in
  storage fresh !! "k" = None /\
  headers headerless = None /\
  fetchLog calling = [{| fc_callback := 1%nat; fc_headers := []; fc_promise := 2%nat |}] /\
  storage (drain 2 s0) !! "k" = None /\
  storage (drain 3 s0) !! "k" =
    Some {| hit_value := 1%nat; hit_now := 1000; hit_maxAge := 200 |} /\
  microtasks s' = [] /\
  promises s' !! 0%nat = Some (Settled (Rejected (EmptyResult "k"))) /\
  storage s' !! "k" <> None /\
  storage s' !! "k" = Some {| hit_value := 1%nat; hit_now := 1000; hit_maxAge := 200 |} /\
  entries s' !! 1%nat =
    Some {| cost := 30000; temp := false; isError := true; policy := None;
            inColdStoarge := false; promise := 4%nat |} /\
  promises (quiesce again.2) !! again.1 = Some (Settled (Rejected (EmptyResult "k"))) /\
  fetchLog (quiesce again.2) = fetchLog calling /\
  promises u' !! 0%nat = Some (Settled (Rejected TypeError)) /\
  storage u' !! "k" = Some {| hit_value := 1%nat; hit_now := 1000; hit_maxAge := 200 |} /\
  entries u' !! 1%nat =
    Some {| cost := 30000; temp := false; isError := true; policy := None;
            inColdStoarge := false; promise := 4%nat |}.
Proof.
  repeat (split; [first [reflexivity | intros H; vm_compute in H; discriminate H]|]).
  reflexivity.
Qed.



(** C3 at work: a second call within the lifetime of the stored
    response. *)
Lemma hit_served_without_fetch_witness :
  let outer := (getCached "k" (Some get) (Some 2%nat) ready).1 in
  let s' := quiesce (getCached "k" (Some get) (Some 2%nat) ready).2 in
  (microtasks s' = [] /\
   fetchLog s' = fetchLog ready /\
   promises s' !! outer = Some (Settled (Fulfilled (VResponse 0))) /\
   exists x', responses s' !! 0%nat = Some x' /\
              headers x' = Some (set_header "im2-cache" "hit"
                                   (responseHeaders stored_policy (clock ready))) /\
              stamped "hit" (responseHeaders stored_policy (clock ready)) served x') /\
  fetchLog s' = [{| fc_callback := 1%nat; fc_headers := []; fc_promise := 2%nat |}] /\
  responses s' !! 0%nat =
    Some {| status := 200;
            headers := Some [("max-age", "7200"); ("im2-cache", "hit")];
            body := NotBuffer; ttl := Some 7200000 |}.
Proof.
  split; [|split; reflexivity].
  apply (hit_served_without_fetch ready "k" get 2 stored_hit (stored 4) stored_policy 0 served);
    try reflexivity.
  discriminate.
Defined.

(** C10 at work: the response the first caller received now says [hit]
    and has a [ttl]. *)
Lemma hit_mutates_shared_response_witness :
  let s' := quiesce (getCached "k" (Some get) (Some 2%nat) ready).2 in
  promises ready !! 0%nat = Some (Settled (Fulfilled (VResponse 0))) /\
  responses ready !! 0%nat =
    Some {| status := 200;
            headers := Some [("max-age", "7200"); ("im2-cache", "miss")];
            body := NotBuffer; ttl := None |} /\
  promises s' !! 0%nat = Some (Settled (Fulfilled (VResponse 0))) /\
  (exists x', responses s' !! 0%nat = Some x' /\
              stamped "hit" (responseHeaders stored_policy (clock ready)) served x' /\
              ttl x' = Some (timeToLive stored_policy (clock ready))) /\
  responses s' !! 0%nat =
    Some {| status := 200;
            headers := Some [("max-age", "7200"); ("im2-cache", "hit")];
            body := NotBuffer; ttl := Some 7200000 |}.
Proof.
  destruct (hit_mutates_shared_response ready "k" get 2 stored_hit (stored 4)
              stored_policy 0 served)
    as (_ & _ & _ & Hseen & Hshared); try reflexivity.
  - discriminate.
  - split; [reflexivity|]. split; [reflexivity|].
    split; [apply Hshared; reflexivity|]. split; [exact Hseen | reflexivity].
Defined.

(** C4 at work: a request the stored policy does not satisfy.  With a
    copy in the cold storage the coordinator answers with it and fetches
    nothing; without one the entry is revalidated with the policy's
    headers. *)
Lemma revalidation_protocol_witness :
  let started := _getResult "k" nocache (Some 1%nat) 2%nat ready_cold in
  (let s1 := cold_answer (Resolves (Some cacheable)) started.2 in
   microtasks s1 = [] /\
   fetchLog s1 = fetchLog ready_cold /\
   promises s1 !! started.1 =
     Some (Settled (Fulfilled
             (VResult (Some (length (responses ready_cold)))
                (newPolicy (clock ready_cold) nocache cacheable) true)))) /\
  (let s1 := cold_answer (Resolves None) started.2 in
   exists f,
     fetchLog s1 =
       fetchLog ready_cold ++
       [{| fc_callback := 2%nat;
           fc_headers := revalidationHeaders stored_policy (clock ready_cold) nocache;
           fc_promise := f |}]) /\
  revalidationHeaders stored_policy (clock ready_cold) nocache = [("no-cache", "1")].
Proof.
  destruct (revalidation_protocol ready_cold "k" nocache 1 (stored 5) stored_policy 2)
    as (Hcopy & Hmiss); try reflexivity.
  split; [exact (Hcopy eq_refl cacheable)|].
  split; [|reflexivity].
  destruct (Hmiss (Resolves None) I) as (f & Hlog & _).
  exists f. exact Hlog.
Defined.

(** C4 fails as stated: the stored entry has a policy that the request
    does not satisfy, and the cold storage has a copy; the coordinator yields
    that copy and the fetch callback is not invoked at all. *)
Lemma cold_copy_preempts_revalidation :
  let started := _getResult "k" nocache (Some 1%nat) 2%nat ready_cold in
  let s' := quiesce (external 8%nat (Resolves (Some cacheable)) started.2) in
  entries ready_cold !! 1%nat = Some (stored 5) /\
  satisfiesWithoutRevalidation stored_policy (clock ready_cold) nocache = false /\
  coldLog started.2 = coldLog ready_cold ++ [ColdGet "k" 8] /\
  microtasks s' = [] /\
  promises s' !! started.1 =
    Some (Settled (Fulfilled (VResult (Some 1%nat) (make 1000 cacheable) true))) /\
  fetchLog s' = fetchLog ready_cold /\
  ~ (exists f, fetchLog s' =
               fetchLog ready_cold ++
               [{| fc_callback := 2%nat;
                   fc_headers := revalidationHeaders stored_policy (clock ready_cold) nocache;
                   fc_promise := f |}]).
Proof.
  split; [reflexivity|]. split; [reflexivity|]. split; [reflexivity|].
  split; [reflexivity|]. split; [reflexivity|]. split; [reflexivity|].
  intros [f H]. apply (f_equal length) in H. vm_compute in H. discriminate H.
Qed.




(** C8 at work: the first fetch for a key answers 304. *)
Lemma unconditional_fetch_rejects_304_witness :
  let started := _getResult "k" get None 1%nat fresh in
  let s1 := cold_answer (Resolves None) started.2 in
  exists f,
    fetchLog s1 = [{| fc_callback := 1%nat; fc_headers := []; fc_promise := f |}] /\
    promises (quiesce (external f (Resolves (Some (page 304 []))) s1)) !! started.1 =
      Some (Settled (Rejected UnexpectedRevalidation)).
Proof.
  destruct (unconditional_fetch_rejects_304 fresh "k" get None 1 (Resolves None))
    as (f & Hlog & Hrej).
  - reflexivity.
  - exact I.
  - exact I.
  - exists f. split; [exact Hlog|].
    destruct (Hrej (page 304 [])) as (_ & _ & H); [reflexivity | exact H].
Defined.

(** ** Further worked instances *)

(** X1 at work: a call with an empty key on the fresh cache. *)
Lemma bad_arguments_rejected_witness :
  let call := getCached "" (Some get) (Some 1%nat) fresh in
  promises call.2 !! call.1 = Some (Settled (Rejected BadCacheArgs)) /\
  storage call.2 = storage fresh /\
  fetchLog call.2 = [].
Proof.
  destruct (bad_arguments_rejected fresh "" (Some get) (Some 1%nat))
    as (Hfail & _ & Hstore & _ & _ & _ & Hlog & _).
  - left. reflexivity.
  - split; [exact Hfail|]. split; [exact Hstore | exact Hlog].
Defined.

(** X2 at work: the fetch of the call in flight answers with a page of
    three bytes that lives two hours; the entry costs 4003. *)
Lemma fetched_response_stored_witness :
  let s := (new_response binary calling).2 in
  let pol := make 1000 binary in
  let s' := quiesce (settle 1%nat (Fulfilled (VResult (Some 0%nat) pol false)) s) in
  promises s' !! 0%nat = Some (Settled (Fulfilled (VResponse 0))) /\
  storage s' !! "k" =
    Some {| hit_value := length (entries s); hit_now := clock s;
            hit_maxAge := timeToLive pol (clock s) + hd 0 (randoms s) |} /\
  (exists x', responses s' !! 0%nat = Some x' /\
              stamped "miss" (responseHeaders pol (clock s)) binary x' /\
              ttl x' = ttl binary) /\
  (exists e', entries s' !! length (entries s) = Some e' /\
              cost e' = 4000 + match body binary with
                               | Buffer bytes => Z.of_nat (length bytes)
                               | NotBuffer => 8000
                               end /\
              temp e' = false /\ isError e' = false /\
              policy e' = Some pol /\ inColdStoarge e' = false /\
              promise e' = 4%nat) /\
  responses s' !! 0%nat =
    Some {| status := 200;
            headers := Some [("max-age", "7200"); ("im2-cache", "miss")];
            body := Buffer [Byte.x68; Byte.x69; Byte.x21]; ttl := None |} /\
  storage s' !! "k" = Some {| hit_value := 1%nat; hit_now := 1000; hit_maxAge := 7200007 |} /\
  entries s' !! 1%nat =
    Some {| cost := 4003; temp := false; isError := false; policy := Some pol;
            inColdStoarge := false; promise := 4%nat |}.
Proof.
  destruct (fetched_response_stored (new_response binary calling).2 "k" 0 1 3 4
              0 binary [("max-age", "7200")] (make 1000 binary) false)
    as (_ & Hcall & _ & _ & Hstore & _ & _ & _ & Hseen & Hentry).
  - constructor; try reflexivity.
    exists {| hit_value := 0%nat; hit_now := 1000; hit_maxAge := 2000 |},
           {| cost := 1; temp := true; isError := false; policy := None;
              inColdStoarge := false; promise := 4%nat |}.
    split; [reflexivity|]. split; reflexivity.
  - reflexivity.
  - reflexivity.
  - reflexivity.
  - vm_compute; discriminate.
  - split; [exact Hcall|]. split; [exact Hstore|]. split; [exact Hseen|].
    split; [exact Hentry|]. split; [reflexivity|]. split; reflexivity.
Defined.


(** X6 at work: two callers, and the fetch fails with code 7. *)
Lemma waiter_shares_failure_witness :
  let all := getCached_all "k" [(get, 1%nat); (get, 2%nat)] fresh in
  let s1 := cold_answer (Resolves None) (quiesce all.2) in
  exists f,
    fetchLog s1 = fetchLog fresh ++ [{| fc_callback := 1%nat; fc_headers := [];
                                        fc_promise := f |}] /\
    let s2 := quiesce (external f (Rejects 7) s1) in
    fetchLog s2 = fetchLog s1 /\
    Forall (fun o => promises s2 !! o = Some (Settled (Rejected (External 7)))) all.1.
Proof.
  destruct (waiter_shares_failure fresh "k" get get 1 2 (Resolves None) 7)
    as (f & Hlog & _ & Hsame & Hall).
  - discriminate.
  - reflexivity.
  - reflexivity.
  - reflexivity.
  - exact I.
  - exists f. split; [exact Hlog|]. split; [exact Hsame | exact Hall].
Defined.

(** X7 at work: a call made 2001 ms into a fetch that has not answered. *)
Lemma expired_marker_fetches_again_witness :
  let call := getCached "k" (Some get) (Some 2%nat) (elapse 2001 calling) in
  let s' := cold_answer (Resolves None) (quiesce call.2) in
  exists f,
    fetchLog s' = fetchLog calling ++ [{| fc_callback := 2%nat; fc_headers := [];
                                          fc_promise := f |}].
Proof.
  destruct (expired_marker_fetches_again calling "k" get 2
              {| hit_value := 0%nat; hit_now := 1000; hit_maxAge := 2000 |}
              {| cost := 1; temp := true; isError := false; policy := None;
                 inColdStoarge := false; promise := 4%nat |}
              2001 (Resolves None))
    as (f & result & Hlog & _).
  - discriminate.
  - reflexivity.
  - reflexivity.
  - reflexivity.
  - reflexivity.
  - reflexivity.
  - exact I.
  - exists f. exact Hlog.
Defined.

(** X4 at work: the answer to the revalidation request carries another
    tag than the stored page; the entry object at 1 gets the policy made
    from the answer. *)
Lemma modified_answer_returned_witness :
  let started := _getResult "k" nocache (Some 1%nat) 2%nat ready in
  let s1 := cold_answer (Resolves None) started.2 in
  let hdrs := revalidationHeaders stored_policy (clock ready) nocache in
  let x := page 200 [("etag", "b"); ("max-age", "60")] in
  exists f,
    fetchLog s1 =
      fetchLog ready ++ [{| fc_callback := 2%nat; fc_headers := hdrs; fc_promise := f |}] /\
    let s2 := quiesce (external f (Resolves (Some x)) s1) in
    let verdict := revalidatedPolicy stored_policy (clock ready) hdrs (Some x) in
    fetchLog s2 = fetchLog s1 /\
    (exists e', entries s2 !! 1%nat = Some e' /\ policy_replaced verdict.1 (stored 4) e') /\
    promises s2 !! started.1 =
      Some (Settled (Fulfilled (VResult (Some (length (responses s1))) verdict.1 false))) /\
    verdict.1 = {| born := 1000; max_age := 60000; etag := Some "b";
                   kept := [("etag", "b"); ("max-age", "60")] |} /\
    policy (stored 4) = Some {| born := 1000; max_age := 7200000; etag := None;
                                kept := [("max-age", "7200")] |}.
Proof.
  destruct (modified_answer_returned ready "k" nocache 1 (stored 4) stored_policy 2
              (Resolves None)) as (f & Hlog & Hanswer).
  - reflexivity.
  - reflexivity.
  - reflexivity.
  - reflexivity.
  - exact I.
  - exists f. split; [exact Hlog|].
    destruct (Hanswer (page 200 [("etag", "b"); ("max-age", "60")]))
      as (_ & Hmodified).
    destruct Hmodified as (_ & Hsame & Hentry & Hresult).
    + reflexivity.
    + vm_compute; discriminate.
    + split; [exact Hsame|]. split; [exact Hentry|]. split; [exact Hresult|].
      split; reflexivity.
Defined.

(** X5 at work: two callers, and the fetch answers with the page; both
    receive the response object 0, which says [hit] and has a [ttl]. *)
Lemma waiter_shares_response_witness :
  let all := getCached_all "k" [(get, 1%nat); (get, 2%nat)] fresh in
  let s1 := cold_answer (Resolves None) (quiesce all.2) in
  let r := length (responses fresh) in
  let pol := newPolicy (clock fresh) get cacheable in
  exists f,
    fetchLog s1 = fetchLog fresh ++ [{| fc_callback := 1%nat; fc_headers := [];
                                        fc_promise := f |}] /\
    let s2 := quiesce (external f (Resolves (Some cacheable)) s1) in
    fetchLog s2 = fetchLog s1 /\
    Forall (fun o => promises s2 !! o = Some (Settled (Fulfilled (VResponse r)))) all.1 /\
    (exists x', responses s2 !! r = Some x' /\
                stamped "hit" (responseHeaders pol (clock fresh)) cacheable x' /\
                ttl x' = Some (timeToLive pol (clock fresh))) /\
    all.1 = [0%nat; 5%nat] /\
    responses (quiesce (external 2%nat (Resolves (Some cacheable)) s1)) !! 0%nat =
      Some {| status := 200;
              headers := Some [("max-age", "7200"); ("im2-cache", "hit")];
              body := NotBuffer; ttl := Some 7200000 |}.
Proof.
  destruct (waiter_shares_response fresh "k" get get 1 2 (Resolves None) cacheable
              [("max-age", "7200")]) as (f & Hlog & _ & Hsame & Hall & _ & Hseen).
  - discriminate.
  - reflexivity.
  - reflexivity.
  - reflexivity.
  - exact I.
  - vm_compute; discriminate.
  - reflexivity.
  - reflexivity.
  - vm_compute; discriminate.
  - reflexivity.
  - exists f. split; [exact Hlog|]. split; [exact Hsame|]. split; [exact Hall|].
    split; [exact Hseen|]. split; reflexivity.
Defined.

(** X9 at work: a request that the stored page does not satisfy, two
    hours of life left. *)
Lemma outgoing_entry_demoted_witness :
  let s1 := quiesce (getCached "k" (Some nocache) (Some 2%nat) ready_cold).2 in
  flag s1 (hit_value stored_hit) = Some true /\
  exists g w,
    coldLog s1 =
      coldLog ready_cold ++
      [ColdGet "k" g;
       ColdSet "k" (VResponse 0) (timeToLive stored_policy (clock ready_cold)) w].
Proof.
  destruct (outgoing_entry_demoted ready_cold "k" nocache 2 stored_hit (stored 5)
              stored_policy 0) as (_ & Hflag & _ & Hwrite).
  - discriminate.
  - reflexivity.
  - reflexivity.
  - reflexivity.
  - reflexivity.
  - reflexivity.
  - reflexivity.
  - reflexivity.
  - reflexivity.
  - vm_compute; discriminate.
  - right. reflexivity.
  - split; [exact Hflag | exact Hwrite].
Defined.

(** X10 at work: a call made after the stored page has expired. *)
Lemma expired_entry_fetched_afresh_witness :
  let s := elapse 7200008 ready in
  let s1 := quiesce (getCached "k" (Some get) (Some 2%nat) s).2 in
  exists f,
    fetchLog s1 = fetchLog s ++ [{| fc_callback := 2%nat; fc_headers := [];
                                    fc_promise := f |}].
Proof.
  destruct (expired_entry_fetched_afresh (elapse 7200008 ready) "k" get 2 stored_hit
              (stored 4) stored_policy 0) as (_ & Hlog).
  - discriminate.
  - reflexivity.
  - reflexivity.
  - reflexivity.
  - reflexivity.
  - reflexivity.
  - reflexivity.
  - reflexivity.
  - exact Hlog.
Defined.

(** X11 at work: a hit on the stored page, and the write fails. *)
Lemma failed_write_retried_on_next_hit_witness :
  let first := getCached "k" (Some get) (Some 2%nat) ready_cold in
  let s1 := quiesce first.2 in
  let write w := ColdSet "k" (VResponse 0) (timeToLive stored_policy (clock ready_cold)) w in
  exists w,
    coldLog s1 = coldLog ready_cold ++ [write w] /\
    let s2 := quiesce (external w (Rejects 7) s1) in
    flag s2 (hit_value stored_hit) = Some false /\
    let s3 := quiesce (getCached "k" (Some get) (Some 2%nat) s2).2 in
    exists w',
      coldLog s3 = coldLog ready_cold ++ [write w; write w'] /\
      flag s3 (hit_value stored_hit) = Some true.
Proof.
  destruct (failed_write_retried_on_next_hit ready_cold "k" get 2 stored_hit (stored 5)
              stored_policy 0 served 7)
    as (w & d & (Hwrite & _) & (_ & Hback & _) & Hagain).
  - discriminate.
  - reflexivity.
  - reflexivity.
  - reflexivity.
  - reflexivity.
  - reflexivity.
  - reflexivity.
  - reflexivity.
  - reflexivity.
  - reflexivity.
  - reflexivity.
  - reflexivity.
  - vm_compute; discriminate.
  - exists w. split; [exact Hwrite|]. split; [exact Hback | exact Hagain].
Defined.

(** X12 at work: the origin answers the revalidation request with a 304;
    the caller receives the stored response, marked [miss]. *)
Lemma not_modified_response_restored_witness :
  let hdrs := revalidationHeaders stored_policy (clock ready) nocache in
  let verdict := revalidatedPolicy stored_policy (clock ready) hdrs (Some (page 304 [])) in
  let call := getCached "k" (Some nocache) (Some 2%nat) ready in
  let s1 := quiesce call.2 in
  exists f,
    fetchLog s1 =
      fetchLog ready ++ [{| fc_callback := 2%nat; fc_headers := hdrs; fc_promise := f |}] /\
    let s2 := quiesce (external f (Resolves (Some (page 304 []))) s1) in
    fetchLog s2 = fetchLog s1 /\
    promises s2 !! call.1 = Some (Settled (Fulfilled (VResponse 0))) /\
    (exists x', responses s2 !! 0%nat = Some x' /\
                stamped "miss" (responseHeaders verdict.1 (clock ready)) served x' /\
                ttl x' = ttl served) /\
    responses ready !! 0%nat = Some served /\
    responses (quiesce (external 7%nat (Resolves (Some (page 304 []))) s1)) !! 0%nat =
      Some {| status := 200;
              headers := Some [("max-age", "7200"); ("im2-cache", "miss")];
              body := NotBuffer; ttl := None |}.
Proof.
  destruct (not_modified_response_restored ready "k" nocache 2 stored_hit (stored 4)
              stored_policy 0 served (page 304 [])
              [("max-age", "7200"); ("im2-cache", "miss")])
    as (f & Hlog & _ & Hsame & Hcall & _ & Hseen & _).
  - discriminate.
  - reflexivity.
  - reflexivity.
  - reflexivity.
  - reflexivity.
  - reflexivity.
  - reflexivity.
  - reflexivity.
  - reflexivity.
  - reflexivity.
  - reflexivity.
  - reflexivity.
  - reflexivity.
  - reflexivity.
  - reflexivity.
  - vm_compute; discriminate.
  - exists f. split; [exact Hlog|]. split; [exact Hsame|]. split; [exact Hcall|].
    split; [exact Hseen|]. split; reflexivity.
Defined.

(** X13 at work: two callers, and the fetch answers with a page that may
    not be cached; the first caller receives it, marked [no-cache], and the
    second caller fetches for itself. *)
Lemma uncacheable_response_not_shared_witness :
  let all := getCached_all "k" [(get, 1%nat); (get, 2%nat)] fresh in
  let s1 := cold_answer (Resolves None) (quiesce all.2) in
  let r := length (responses fresh) in
  let pol := newPolicy (clock fresh) get uncacheable in
  let fetch cb f := {| fc_callback := cb; fc_headers := []; fc_promise := f |} in
  exists f o1 o2,
    all.1 = [o1; o2] /\
    fetchLog s1 = fetchLog fresh ++ [fetch 1%nat f] /\
    let s2 := cold_answer (Resolves None)
                (quiesce (external f (Resolves (Some uncacheable)) s1)) in
    (exists f', fetchLog s2 = fetchLog fresh ++ [fetch 1%nat f; fetch 2%nat f']) /\
    promises s2 !! o1 = Some (Settled (Fulfilled (VResponse r))) /\
    promises s2 !! o2 = Some (Pending []) /\
    (exists x', responses s2 !! r = Some x' /\
                stamped "no-cache" (responseHeaders pol (clock fresh)) uncacheable x' /\
                ttl x' = ttl uncacheable) /\
    responses (quiesce (external 2%nat (Resolves (Some uncacheable)) s1)) !! 0%nat =
      Some {| status := 200;
              headers := Some [("max-age", "0"); ("im2-cache", "no-cache")];
              body := NotBuffer; ttl := None |}.
Proof.
  destruct (uncacheable_response_not_shared fresh "k" get get 1 2 (Resolves None)
              uncacheable [("max-age", "0")])
    as (f & o1 & o2 & Hall & Hlog & _ & Htwice & Hfirst & Hwaits & _ & Hseen).
  - discriminate.
  - reflexivity.
  - reflexivity.
  - reflexivity.
  - exact I.
  - vm_compute; discriminate.
  - reflexivity.
  - reflexivity.
  - exists f, o1, o2. split; [exact Hall|]. split; [exact Hlog|].
    split; [exact Htwice|]. split; [exact Hfirst|]. split; [exact Hwaits|].
    split; [exact Hseen | reflexivity].
Defined.

(** X14 at work: a hit on the stored page, the write succeeds, and the
    page is hit again. *)
Lemma successful_write_not_repeated_witness :
  let s1 := quiesce (getCached "k" (Some get) (Some 2%nat) ready_cold).2 in
  exists w,
    coldLog s1 =
      coldLog ready_cold ++
      [ColdSet "k" (VResponse 0) (timeToLive stored_policy (clock ready_cold)) w] /\
    let s2 := quiesce (external w (Resolves None) s1) in
    let second := getCached "k" (Some get) (Some 2%nat) s2 in
    let s3 := quiesce second.2 in
    coldLog s3 = coldLog s1 /\
    promises s3 !! second.1 = Some (Settled (Fulfilled (VResponse 0))).
Proof.
  destruct (successful_write_not_repeated ready_cold "k" get 2 stored_hit (stored 5)
              stored_policy 0 served)
    as (w & Hwrite & _ & _ & Hsame & _ & Hserved).
  - discriminate.
  - reflexivity.
  - reflexivity.
  - reflexivity.
  - reflexivity.
  - reflexivity.
  - reflexivity.
  - reflexivity.
  - reflexivity.
  - reflexivity.
  - reflexivity.
  - reflexivity.
  - vm_compute; discriminate.
  - exists w. split; [exact Hwrite|]. split; [exact Hsame | exact Hserved].
Defined.

(** X16 at work: [dump] on the cache that holds the page. *)
Lemma dump_demotes_entry_witness :
  let d := dump ready_cold in
  let s' := quiesce d.2 in
  let t := timeToLive stored_policy (clock ready_cold) in
  promises s' !! d.1 = Some (Settled (Fulfilled (VArray [VUndefined]))) /\
  flag s' (hit_value stored_hit) = Some true /\
  (exists w, coldLog s' = coldLog ready_cold ++ [ColdSet "k" (VResponse 0) t w]) /\
  flag ready_cold 1 = Some false /\
  coldLog (quiesce (dump ready_cold).2) =
    [ColdGet "k" 2; ColdSet "k" (VResponse 0) 7200000 10].
Proof.
  destruct (dump_demotes_entry ready_cold "k" stored_hit (stored 5) stored_policy
              (VResponse 0)) as (_ & _ & _ & Hall & Hwrite & _).
  - reflexivity.
  - reflexivity.
  - reflexivity.
  - reflexivity.
  - reflexivity.
  - reflexivity.
  - reflexivity.
  - reflexivity.
  - destruct Hwrite as (Hflag & Hlog); [reflexivity | vm_compute; discriminate |].
    split; [exact Hall|]. split; [exact Hflag|]. split; [exact Hlog|].
    split; reflexivity.
Defined.
